(** * trial_helpers: the SERP aggregation pipeline and the scrape client

    A shallow embedding of [src/serp.py] and [src/scrape.py].

    - Python exceptions are values of [exn]; code that may raise lives in the
      error monad [pyres], code that also talks to the network or prints
      lives in the state-and-error monad [io].
    - JSON bodies decoded by [response.json()] are values of [pyval]; a
      Python [dict] with string keys is a [gmap string pyval].
    - A Python [str] is a [string], one [ascii] per character.
    - The rate limiter ([sleep_and_retry], [limits]) only delays a call; it
      changes no value and is not part of the embedding. *)

From Stdlib Require Import ZArith Ascii String.
From stdpp Require Import gmap strings list fin_maps pretty.

Open Scope string_scope.
Open Scope list_scope.

(** ** Exceptions and the error monad *)

(** A raised [Exception]: the name of its class and [str(e)]. *)
Record exn := Exn { exn_class : string; exn_str : string }.

Inductive pyres (A : Type) :=
| Ok (a : A)
| Raise (e : exn).
Arguments Ok {A} a.
Arguments Raise {A} e.

#[global] Instance pyres_ret : MRet pyres := λ A a, Ok a.
#[global] Instance pyres_bind : MBind pyres := λ A B k m,
  match m with
  | Ok a => k a
  | Raise e => Raise e
  end.

(** [for x in xs: body], where the body updates the loop state [acc];
    the loop stops at the first iteration that raises. *)
Fixpoint for_each `{MBind M, MRet M} {A S}
    (xs : list A) (body : S → A → M S) (acc : S) : M S :=
  match xs with
  | [] => mret acc
  | x :: xs' => acc' ← body acc x; for_each xs' body acc'
  end.

(** ** Python values decoded from JSON *)

#[warnings="-register-all"]
Inductive pyval :=
| PNone
| PBool (b : bool)
| PInt (z : Z)
| PFloat (repr : string)
| PStr (s : string)
| PList (l : list pyval)
| PDict (d : gmap string pyval).

(** [type(v).__name__] *)
Definition type_name (v : pyval) : string :=
  match v with
  | PNone => "NoneType"
  | PBool _ => "bool"
  | PInt _ => "int"
  | PFloat _ => "float"
  | PStr _ => "str"
  | PList _ => "list"
  | PDict _ => "dict"
  end.

Definition AttributeError (v : pyval) (attr : string) : exn :=
  Exn "AttributeError"
      ("'" +:+ type_name v +:+ "' object has no attribute '" +:+ attr +:+ "'").

Definition NotSubscriptable (v : pyval) : exn :=
  Exn "TypeError" ("'" +:+ type_name v +:+ "' object is not subscriptable").

Definition KeyError (k : string) : exn := Exn "KeyError" ("'" +:+ k +:+ "'").

(** [v.get(key, default)]: only a [dict] has the method. *)
Definition py_get (v : pyval) (key : string) (dflt : pyval) : pyres pyval :=
  match v with
  | PDict d => Ok (default dflt (d !! key))
  | _ => Raise (AttributeError v "get")
  end.

(** ** Built-ins on Python lists *)

(** [max(ns)] raises [ValueError] on an empty iterable. *)
Definition py_max (ns : list nat) : pyres nat :=
  match ns with
  | [] => Raise (Exn "ValueError" "max() iterable argument is empty")
  | n :: ns' => Ok (foldl Nat.max n ns')
  end.

(** [l[i]] for an index [i >= 0]. *)
Definition py_index {A} (l : list A) (i : nat) : pyres A :=
  match l !! i with
  | Some x => Ok x
  | None => Raise (Exn "IndexError" "list index out of range")
  end.

(** [enumerate(l, start)] *)
Fixpoint enumerate {A} (start : nat) (l : list A) : list (nat * A) :=
  match l with
  | [] => []
  | x :: l' => (start, x) :: enumerate (S start) l'
  end.

(** Truth value of a list: [if l]. *)
Definition py_truthy {A} (l : list A) : bool :=
  match l with
  | [] => false
  | _ :: _ => true
  end.

(** ** The interlacer, [get_in_factor_order] (serp.py, lines 124-145) *)

Section Interlacer.
Context {A : Type}.

(** The body of the inner loop: [if i < len(lst): result.append(lst[i])]. *)
Definition take_rank (i : nat) (result : list A) (lst : list A)
  : pyres (list A) :=
  if bool_decide (i < length lst)
  then x ← py_index lst i; Ok (result ++ [x])
  else Ok result.

Definition get_in_factor_order (lists : list (list A)) : pyres (list A) :=
  max_len ← (if py_truthy lists then py_max (length <$> lists) else Ok 0);
  for_each (seq 0 max_len)
           (λ result i, for_each lists (take_rank i) result)
           [].

(** The interlacing as the specification words it: at position [i], the
    elements at position [i] of the lists that have one, in the lists'
    order; positions run from [0] to the largest length minus one. *)
Definition rank_row (lists : list (list A)) (i : nat) : list A :=
  omap (λ lst, lst !! i) lists.

Definition round_robin (lists : list (list A)) : list A :=
  concat (rank_row lists <$> seq 0 (max_list (length <$> lists))).

(** Where the element [i] of list number [k] lands in the interlacing:
    after all earlier ranks, and after the rank-[i] elements of the lists
    before list [k]. *)
Definition rr_index (lists : list (list A)) (k i : nat) : nat :=
  length (concat (rank_row lists <$> seq 0 i))
  + length (rank_row (take k lists) i).
End Interlacer.

(** ** More built-ins on decoded JSON *)

(** [s[:n]] on a sequence: a negative [n] counts from the end, and the
    bound is clamped to the length. *)
Definition slice_to {A} (l : list A) (n : Z) : list A :=
  let len := Z.of_nat (length l) in
  let stop := if (n <? 0)%Z then Z.max 0 (len + n) else Z.min n len in
  take (Z.to_nat stop) l.

(** The items visited by [for x in v[:n]]. A [list] yields its first
    elements, a [str] its first characters (as one-character strings);
    nothing else decoded from JSON can be sliced (for a [dict] the class
    of the exception depends on the Python version). *)
Definition slice_items (v : pyval) (n : Z) : pyres (list pyval) :=
  match v with
  | PList l => Ok (slice_to l n)
  | PStr s =>
      Ok ((λ c, PStr (String c ""))
            <$> slice_to (String.list_ascii_of_string s) n)
  | PDict _ => Raise (Exn "TypeError" "unhashable type: 'slice'")
  | _ => Raise (NotSubscriptable v)
  end.

(** [v[key]] with a string key. *)
Definition py_getitem (v : pyval) (key : string) : pyres pyval :=
  match v with
  | PDict d =>
      match d !! key with
      | Some x => Ok x
      | None => Raise (KeyError key)
      end
  | PList _ =>
      Raise (Exn "TypeError"
                 "list indices must be integers or slices, not str")
  | PStr _ =>
      Raise (Exn "TypeError" "string indices must be integers, not 'str'")
  | _ => Raise (NotSubscriptable v)
  end.

(** ** The data model (serp.py, lines 22-27) *)

Record SerpedSite := {
  url : string;
  title : string;
  snippet : string;
  rich_snippet : option (list string);
  source : option string;
}.

(** What the batch fetcher stores per query: the sites, or the exception. *)
Inductive QueryOutcome :=
| Sites (sites : list SerpedSite)
| Failed (e : exn).

(** ** The HTTP collaborator *)

(** A [requests.Response], as far as the code looks at it:
    [raise_for_status()] raises [status_error] when there is one, and
    [json()] returns the decoded body or raises. *)
Record Response := {
  status_error : option exn;
  json : pyres pyval;
}.

Definition raise_for_status (r : Response) : pyres unit :=
  match status_error r with
  | Some e => Raise e
  | None => Ok tt
  end.

(** The two output formats of the scrape API,
    [Literal["markdown", "html"]]. *)
Inductive Format := markdown | html.

Definition format_str (f : Format) : string :=
  match f with
  | markdown => "markdown"
  | html => "html"
  end.

(** ** The collaborators *)

(** What the clients are run against.
    - [World] is the state of everything outside the process; each call of
      a provider may change it, and either raises (no connection, timeout)
      or gives a response.
    - [quote_plus] is [urllib.parse.quote_plus]; it raises
      [UnicodeEncodeError] on a text that cannot be encoded.
    - [str_validator] is pydantic's validation of a [str] field: the
      accepted string, or nothing when the value is rejected. A [str] is
      always accepted as it is; what happens to numbers depends on the
      pydantic version.
    - [validation_error] is the [ValidationError] that pydantic raises for
      the four field values given to [SerpedSite] when one is rejected.
    - [print_out] is the built-in [print] on the standard output: it may
      change the world, and raises when the output cannot take the text. *)
Class Env := {
  World : Type;
  serper_post : string → World → pyres Response * World;
  olostep_post : string → string → Z → Z → World → pyres Response * World;
  quote_plus : string → pyres string;
  str_validator : pyval → option string;
  str_validator_str : ∀ s, str_validator (PStr s) = Some s;
  validation_error : pyval → pyval → pyval → pyval → exn;
  print_out : string → World → option exn * World;
}.

(** ** The clients *)

Section Clients.
Context {env : Env}.

(** What a run can change: the world, and the lines printed so far. *)
Record state := { net : World; stdout : list string }.

Definition io (A : Type) : Type := state → pyres A * state.

#[global] Instance io_ret : MRet io := λ A a s, (Ok a, s).
#[global] Instance io_bind : MBind io := λ A B k m s,
  match m s with
  | (Ok a, s') => k a s'
  | (Raise e, s') => (Raise e, s')
  end.

(** Code that raises or returns without touching the state. *)
Definition lift {A} (r : pyres A) : io A := λ s, (r, s).

(** [try: body / except Exception as e: handler(e)] *)
Definition try_except {A} (body : io A) (handler : exn → io A) : io A :=
  λ s, match body s with
       | (Ok a, s') => (Ok a, s')
       | (Raise e, s') => handler e s'
       end.

(** [print(line)]: a text that went out is recorded in [stdout]. *)
Definition print (line : string) : io unit :=
  λ s, match print_out line (net s) with
       | (None, w) => (Ok tt, {| net := w; stdout := stdout s ++ [line] |})
       | (Some e, w) => (Raise e, {| net := w; stdout := stdout s |})
       end.

Definition call (f : World → pyres Response * World) : io Response :=
  λ s, let '(r, w) := f (net s) in (r, {| net := w; stdout := stdout s |}).

(** *** [SerpedSite(url=..., title=..., snippet=..., source=...)] *)

(** An [Optional[str]] field accepts [None] too. *)
Definition optional_str_validator (v : pyval) : option (option string) :=
  match v with
  | PNone => Some None
  | _ => Some <$> str_validator v
  end.

Definition SerpedSite_new (url title snippet source : pyval)
  : pyres SerpedSite :=
  match str_validator url, str_validator title, str_validator snippet,
        optional_str_validator source with
  | Some u, Some t, Some sn, Some so =>
      Ok {| url := u; title := t; snippet := sn;
            rich_snippet := None; source := so |}
  | _, _, _, _ =>
      Raise (validation_error url title snippet source)
  end.

(** *** [fetch_serper] (serp.py, lines 32-86) *)

(** One iteration of the loop over the organic entries. The first thing
    done to [site_data] is a call of [.get], which only a [dict] has. *)
Definition site_of (site_data : pyval) : pyres SerpedSite :=
  match site_data with
  | PDict d =>
      SerpedSite_new
        (default (PStr "") (d !! "link"))
        (default (PStr "") (d !! "title"))
        (if bool_decide (is_Some (d !! "snippet"))
         then default (PStr "") (d !! "snippet") else PStr "")
        (default (PStr "") (d !! "source"))
  | _ => Raise (AttributeError site_data "get")
  end.

(** The loop body of lines 77-84: build the site, append it. *)
Definition append_site (sites : list SerpedSite) (site_data : pyval)
  : pyres (list SerpedSite) :=
  site ← site_of site_data; Ok (sites ++ [site]).

Definition fetch_serper (query : string) (num_sites_per_query : Z)
  : io (list SerpedSite) :=
  response ← call (serper_post query);
  _ ← lift (raise_for_status response);
  data ← lift (json response);
  organic ← lift (py_get data "organic" (PList []));
  items ← lift (slice_items organic num_sites_per_query);
  lift (for_each items append_site []).

(** *** [fetch_serper_batch_by_limit] (serp.py, lines 89-121) *)

Definition fetch_serper_batch_by_limit
    (queries : list string) (num_sites_per_query : Z)
  : io (list QueryOutcome) :=
  for_each queries
    (λ results query,
       try_except
         (sites ← fetch_serper query num_sites_per_query;
          mret (results ++ [Sites sites]))
         (λ e, mret (results ++ [Failed e])))
    [].

(** *** [serp_and_process] (serp.py, lines 148-199) *)

(** The deduplication loop of lines 191-196: its body on the pair of
    [seen] and [deduped_sites], and the loop from the empty pair. *)
Definition dedup_step (st : gset string * list SerpedSite) (site : SerpedSite)
  : gset string * list SerpedSite :=
  let '(seen, deduped_sites) := st in
  if bool_decide (url site ∉ seen)
  then ({[url site]} ∪ seen, deduped_sites ++ [site])
  else (seen, deduped_sites).

Definition deduplicate (interlaced_sites : list SerpedSite)
  : list SerpedSite :=
  (foldl dedup_step (∅, []) interlaced_sites).2.

(** The loop body of lines 181-185. *)
Definition partition_step (search_queries : list string)
    (fetched_sites_lists : list (list SerpedSite))
    (entry : nat * QueryOutcome) : io (list (list SerpedSite)) :=
  let '(idx, result) := entry in
  match result with
  | Failed e =>
      query ← lift (py_index search_queries idx);
      _ ← print ("The search query '" +:+ query +:+ "' failed. Error: "
                 +:+ exn_str e);
      mret fetched_sites_lists
  | Sites sites => mret (fetched_sites_lists ++ [sites])
  end.

(** One step of the list comprehension of line 174. *)
Definition encode_query (encoded_queries : list string) (query : string)
  : pyres (list string) :=
  encoded ← quote_plus query; Ok (encoded_queries ++ [encoded]).

Definition serp_and_process
    (search_queries : list string) (num_sites_per_query : Z)
  : io (list SerpedSite) :=
  encoded_queries ← lift (for_each search_queries encode_query []);
  results ← fetch_serper_batch_by_limit encoded_queries num_sites_per_query;
  fetched_sites_lists ←
    for_each (enumerate 0 results) (partition_step search_queries) [];
  if py_truthy fetched_sites_lists then
    interlaced_sites ← lift (get_in_factor_order fetched_sites_lists);
    mret (deduplicate interlaced_sites)
  else mret [].

(** *** [scrape_url] (scrape.py, lines 21-72) *)

Definition scrape_url (url : string) (format : Format) (wait_ms timeout : Z)
  : io pyval :=
  response ← call (olostep_post url (format_str format) wait_ms timeout);
  _ ← lift (raise_for_status response);
  data ← lift (json response);
  result ← lift (py_getitem data "result");
  lift (py_get result (format_str format +:+ "_content") PNone).

(** *** Vocabulary of the specification *)

(** The provider answers a call with a success status and a body that
    decodes to [body], and leaves the world in [w']. *)
Definition answers (reply : pyres Response * World)
    (body : pyval) (w' : World) : Prop :=
  ∃ response,
    reply = (Ok response, w')
    ∧ status_error response = None
    ∧ json response = Ok body.

(** The outcome recorded for one call of the single-query fetcher. *)
Definition outcome_of (r : pyres (list SerpedSite)) : QueryOutcome :=
  match r with
  | Ok sites => Sites sites
  | Raise e => Failed e
  end.

(** One outcome per query, in order, each query run in the state the
    previous one left. *)
Fixpoint batch_outcomes (queries : list string) (num_sites_per_query : Z)
    (s : state) : list QueryOutcome * state :=
  match queries with
  | [] => ([], s)
  | query :: queries' =>
      let '(r, s1) := fetch_serper query num_sites_per_query s in
      let '(outs, s2) := batch_outcomes queries' num_sites_per_query s1 in
      (outcome_of r :: outs, s2)
  end.

(** The result lists of the queries that succeeded, in query order. *)
Definition successes (outs : list QueryOutcome) : list (list SerpedSite) :=
  omap (λ o, match o with Sites sites => Some sites | Failed _ => None end)
       outs.

Definition is_failure (o : QueryOutcome) : Prop :=
  match o with
  | Failed _ => True
  | Sites _ => False
  end.

(** The first site of a list with a given url. *)
Definition first_with_url (u : string) (l : list SerpedSite)
  : option SerpedSite :=
  List.find (λ site, bool_decide (url site = u)) l.

(** The sites kept from [l] when the urls in [seen] were met before. *)
Fixpoint keep_unseen (seen : gset string) (l : list SerpedSite)
  : list SerpedSite :=
  match l with
  | [] => []
  | site :: l' =>
      if bool_decide (url site ∉ seen)
      then site :: keep_unseen ({[url site]} ∪ seen) l'
      else keep_unseen seen l'
  end.

(** A field of an organic entry that is a string when it is there. *)
Definition str_if_present (d : gmap string pyval) (key : string) : bool :=
  match d !! key with
  | None | Some (PStr _) => true
  | Some _ => false
  end.

(** An organic entry of the expected shape: an object whose [link],
    [title], [snippet] and [source] are strings when present. *)
Definition well_formed_entry (entry : pyval) : bool :=
  match entry with
  | PDict d =>
      str_if_present d "link" && str_if_present d "title"
      && str_if_present d "snippet" && str_if_present d "source"
  | _ => false
  end.

End Clients.

(** ** A concrete set of collaborators *)

Module Demo.
(** [quote_plus] on a byte string: letters, digits and [_.-~] stay, a
    space becomes [+], every other byte becomes [%XX]. *)
Definition hex_digit (n : N) : ascii :=
  if (n <? 10)%N then Ascii.ascii_of_N (48 + n)
  else Ascii.ascii_of_N (55 + n).

Definition unreserved (c : ascii) : bool :=
  let n := Ascii.N_of_ascii c in
  ((48 <=? n) && (n <=? 57) || (65 <=? n) && (n <=? 90)
   || (97 <=? n) && (n <=? 122))%N
  || bool_decide (c ∈ ["_"; "."; "-"; "~"]%char).

Definition quote_char (c : ascii) : string :=
  if unreserved c then String c ""
  else if bool_decide (c = " "%char) then "+"
  else let n := Ascii.N_of_ascii c in
       String "%" (String (hex_digit (n / 16)) (String (hex_digit (n mod 16)) "")).

Fixpoint quote_plus_bytes (s : string) : string :=
  match s with
  | "" => ""
  | String c s' => quote_char c +:+ quote_plus_bytes s'
  end.

(** pydantic 2: of the values decoded from JSON, only a [str] is a
    valid [str]. *)
Definition strict_str (v : pyval) : option string :=
  match v with
  | PStr s => Some s
  | _ => None
  end.

Definition entry (fields : list (string * string)) : pyval :=
  PDict (list_to_map (prod_map id PStr <$> fields)).

Definition organic_entries : list pyval :=
  [ entry [("link", "https://a.example"); ("title", "A");
           ("snippet", "first hit"); ("source", "A Corp")];
    entry [("link", "https://b.example"); ("title", "B")];
    entry [("link", "https://a.example"); ("title", "A again");
           ("snippet", "second hit")] ].

Definition organic_dict : gmap string pyval :=
  {[ "organic" := PList organic_entries ]}.

Definition no_organic_dict : gmap string pyval :=
  {[ "searchParameters" := PDict ∅ ]}.

Definition scraped : gmap string pyval :=
  {[ "markdown_content" := PStr "# Donors" ]}.

Definition scrape_dict : gmap string pyval :=
  {[ "result" := PDict scraped ]}.

Definition ok_response (body : pyval) : Response :=
  {| status_error := None; json := Ok body |}.

(** The world counts the requests sent. The search provider refuses the
    connection for the query [down], answers 403 for [denied], answers an
    object without results for [nothing], and three entries otherwise. *)
Definition search (query : string) (w : nat) : pyres Response * nat :=
  if bool_decide (query = "down")
  then (Raise (Exn "ConnectionError" "connection refused"), S w)
  else if bool_decide (query = "denied")
  then (Ok {| status_error := Some (Exn "HTTPError" "403 Client Error");
              json := Ok (PDict ∅) |}, S w)
  else if bool_decide (query = "nothing")
  then (Ok (ok_response (PDict no_organic_dict)), S w)
  else (Ok (ok_response (PDict organic_dict)), S w).

Definition scrape (url format : string) (wait_ms timeout : Z) (w : nat)
  : pyres Response * nat :=
  (Ok (ok_response (PDict scrape_dict)), S w).

#[export] Instance env : Env := {|
  World := nat;
  serper_post := search;
  olostep_post := scrape;
  quote_plus := λ query, Ok (quote_plus_bytes query);
  str_validator := strict_str;
  str_validator_str := λ s, eq_refl;
  validation_error := λ _ _ _ _,
    Exn "ValidationError" "1 validation error for SerpedSite";
  print_out := λ _ w, (None, w);
|}.

Definition start : state := {| net := 0; stdout := [] |}.
End Demo.

(** ** The script of serp.py (lines 202-211) *)

Section Scripts.
Context {env : Env}.

(** [str(x)] for an [Optional[str]] inside an f-string. *)
Definition py_str_optional (o : option string) : string :=
  match o with
  | Some x => x
  | None => "None"
  end.

Definition site_line (site : SerpedSite) : string :=
  "Site: " +:+ url site +:+ ", Source: " +:+ py_str_optional (source site)
  +:+ ", Snippet: " +:+ snippet site.

Definition serp_main : io unit :=
  try_except
    (sites ← serp_and_process ["DonorAtlas"] 10;
     for_each sites (λ _ site, print (site_line site)) tt)
    (λ e, print ("An error occurred during processing: " +:+ exn_str e)).

(** The line printed for a query and its outcome, if any (line 183). *)
Definition diagnostic (entry : string * QueryOutcome) : option string :=
  match entry.2 with
  | Failed e =>
      Some ("The search query '" +:+ entry.1 +:+ "' failed. Error: "
            +:+ exn_str e)
  | Sites _ => None
  end.

(** Printing texts one after the other, up to the first that raises. *)
Fixpoint print_lines (lines : list string) (s : state) : pyres unit * state :=
  match lines with
  | [] => (Ok tt, s)
  | line :: lines' =>
      match print line s with
      | (Ok _, s') => print_lines lines' s'
      | (Raise e, s') => (Raise e, s')
      end
  end.

(** Deduplication as the specification words it: the site at position
    [i] is kept when no site before position [i] has its url. *)
Definition first_occurrences (l : list SerpedSite) : list SerpedSite :=
  concat (imap (λ i site,
                  if bool_decide (url site ∈ url <$> take i l)
                  then [] else [site])
               l).
End Scripts.

(** ** The LLM client (llm.py) *)

(** [v[i]] with an integer index [i >= 0]. A [dict] decoded from JSON has
    string keys only, so an integer key is never found. *)
Definition py_getitem_int (v : pyval) (i : nat) : pyres pyval :=
  match v with
  | PList l =>
      match l !! i with
      | Some x => Ok x
      | None => Raise (Exn "IndexError" "list index out of range")
      end
  | PStr s =>
      match String.list_ascii_of_string s !! i with
      | Some c => Ok (PStr (String c ""))
      | None => Raise (Exn "IndexError" "string index out of range")
      end
  | PDict _ => Raise (Exn "KeyError" (pretty i))
  | _ => Raise (NotSubscriptable v)
  end.

(** What [call_llm] is run against, besides the world of [Env]: the
    completion endpoint, which sees the JSON payload, and [json.loads] on
    a string. *)
Class LlmEnv {env : Env} := {
  openai_post : pyval → World → pyres Response * World;
  json_loads : string → pyres pyval;
}.

Section Llm.
Context {env : Env} {llm : LlmEnv}.

(** The truth value of [schema] in [... if schema else ...]: [None] and
    the empty dict are false. *)
Definition schema_truthy (schema : option (gmap string pyval)) : bool :=
  match schema with
  | Some d => negb (Nat.eqb (size d) 0)
  | None => false
  end.

Definition schema_value (schema : option (gmap string pyval)) : pyval :=
  match schema with
  | Some d => PDict d
  | None => PNone
  end.

(** The [payload] of lines 67-81; [temperature] is a float, given by its
    [repr]. *)
Definition llm_payload (system_prompt user_prompt model : string)
    (max_tokens : Z) (temperature : string)
    (schema : option (gmap string pyval)) : gmap string pyval :=
  {[ "model" := PStr model;
     "messages" :=
       PList [ PDict {[ "role" := PStr "system";
                        "content" := PStr system_prompt ]};
               PDict {[ "role" := PStr "user";
                        "content" := PStr user_prompt ]} ];
     "response_format" :=
       (if schema_truthy schema
        then PDict {[ "type" := PStr "json_schema";
                      "json_schema" :=
                        PDict {[ "name" := PStr "response";
                                 "schema" := schema_value schema ]} ]}
        else PDict {[ "type" := PStr "text" ]});
     "temperature" := PFloat temperature;
     "max_tokens" := PInt max_tokens ]}.

(** [json.loads(content)]: anything but a string is a [TypeError]. *)
Definition py_json_loads (content : pyval) : pyres pyval :=
  match content with
  | PStr text => json_loads text
  | _ =>
      Raise (Exn "TypeError"
                 ("the JSON object must be str, bytes or bytearray, not "
                  +:+ type_name content))
  end.

(** The body [d] holds [content] at [choices[0].message.content], with
    objects on the way. *)
Definition replies_with (d : gmap string pyval) (content : pyval) : Prop :=
  ∃ choice rest message,
    d !! "choices" = Some (PList (PDict choice :: rest))
    ∧ choice !! "message" = Some (PDict message)
    ∧ message !! "content" = Some content.

(** [call_llm] (llm.py, lines 22-90) *)
Definition call_llm (system_prompt user_prompt model : string)
    (max_tokens : Z) (temperature : string)
    (schema : option (gmap string pyval)) : io pyval :=
  response ← call (openai_post
                     (PDict (llm_payload system_prompt user_prompt model
                                         max_tokens temperature schema)));
  _ ← lift (raise_for_status response);
  data ← lift (json response);
  choices ← lift (py_getitem data "choices");
  choice ← lift (py_getitem_int choices 0);
  message ← lift (py_getitem choice "message");
  content ← lift (py_getitem message "content");
  if bool_decide (is_Some schema)
  then lift (py_json_loads content)
  else mret content.
End Llm.

(** ** More concrete collaborators *)

Module Demo2.
Definition reply (body : gmap string pyval) : Response :=
  {| status_error := None; json := Ok (PDict body) |}.

(** The search provider answers [null] results for the query [null], a
    body that is an array for [array], a body that does not decode for
    [garbled], four entries of which the third is not an object for
    [mixed], and the three entries of [Demo] otherwise. *)
Definition null_organic : gmap string pyval := {[ "organic" := PNone ]}.

Definition mixed_entries : list pyval :=
  [ Demo.entry [("link", "https://a.example"); ("title", "A")];
    Demo.entry [("link", "https://b.example"); ("title", "B")];
    PStr "advert";
    Demo.entry [("link", "https://c.example"); ("title", "C")] ].

Definition mixed_organic : gmap string pyval :=
  {[ "organic" := PList mixed_entries ]}.

Definition search (query : string) (w : nat) : pyres Response * nat :=
  if bool_decide (query = "null") then (Ok (reply null_organic), S w)
  else if bool_decide (query = "array")
  then (Ok {| status_error := None; json := Ok (PList []) |}, S w)
  else if bool_decide (query = "garbled")
  then (Ok {| status_error := None;
              json := Raise (Exn "JSONDecodeError" "Expecting value") |}, S w)
  else if bool_decide (query = "mixed") then (Ok (reply mixed_organic), S w)
  else Demo.search query w.

(** The scrape provider answers a body without [result] for the url
    [empty], a [null] result for [null], and an HTML-only result
    otherwise. *)
Definition html_only : gmap string pyval :=
  {[ "html_content" := PStr "<h1>Donors</h1>" ]}.

Definition null_result : gmap string pyval := {[ "result" := PNone ]}.

Definition html_result : gmap string pyval :=
  {[ "result" := PDict html_only ]}.

Definition scrape (url format : string) (wait_ms timeout : Z) (w : nat)
  : pyres Response * nat :=
  if bool_decide (url = "empty") then (Ok (reply ∅), S w)
  else if bool_decide (url = "null") then (Ok (reply null_result), S w)
  else (Ok (reply html_result), S w).

#[export] Instance env : Env := {|
  World := nat;
  serper_post := search;
  olostep_post := scrape;
  quote_plus := λ query, Ok (Demo.quote_plus_bytes query);
  str_validator := Demo.strict_str;
  str_validator_str := λ s, eq_refl;
  validation_error := λ _ _ _ _,
    Exn "ValidationError" "1 validation error for SerpedSite";
  print_out := λ _ w, (None, w);
|}.

(** The completion endpoint answers one choice whose content is [[]];
    when the system prompt is [silent] it answers no choice at all, and
    when it is [bare] a body without choices. [json.loads] knows the
    texts [[]] and [{}]. *)
Definition completion (content : pyval) : gmap string pyval :=
  {[ "choices" :=
       PList [ PDict {[ "message" := PDict {[ "content" := content ]} ]} ] ]}.

Definition no_choice : gmap string pyval := {[ "choices" := PList [] ]}.

Definition system_of (payload : pyval) : option pyval :=
  match payload with
  | PDict p =>
      match p !! "messages" with
      | Some (PList (PDict m :: _)) => m !! "content"
      | _ => None
      end
  | _ => None
  end.

Definition complete (payload : pyval) (w : nat) : pyres Response * nat :=
  match system_of payload with
  | Some (PStr s) =>
      if bool_decide (s = "silent") then (Ok (reply no_choice), S w)
      else if bool_decide (s = "bare") then (Ok (reply ∅), S w)
      else (Ok (reply (completion (PStr "[]"))), S w)
  | _ => (Raise (Exn "ConnectionError" "connection refused"), S w)
  end.

Definition loads (text : string) : pyres pyval :=
  if bool_decide (text = "[]") then Ok (PList [])
  else if bool_decide (text = "{}") then Ok (PDict ∅)
  else Raise (Exn "JSONDecodeError" "Expecting value").

#[export] Instance llm : LlmEnv (env:=env) := {|
  openai_post := complete;
  json_loads := loads;
|}.

Definition start : state (env:=env) := {| net := 0; stdout := [] |}.

(** The state after one request. *)
Definition after_one : state (env:=env) := {| net := 1; stdout := [] |}.
End Demo2.

(** A world in which no search goes through and the standard output is
    ASCII only, and a query that cannot be url-encoded. *)
Module Demo3.
Definition is_ascii (line : string) : bool :=
  forallb (λ c, (Ascii.N_of_ascii c <? 128)%N)
          (String.list_ascii_of_string line).

Definition search (query : string) (w : nat) : pyres Response * nat :=
  (Raise (Exn "ConnectionError" "connection refused"), S w).

Definition quote (query : string) : pyres string :=
  if bool_decide (query = "lone surrogate")
  then Raise (Exn "UnicodeEncodeError" "surrogates not allowed")
  else Ok (Demo.quote_plus_bytes query).

Definition write (line : string) (w : nat) : option exn * nat :=
  if is_ascii line then (None, w)
  else (Some (Exn "UnicodeEncodeError" "ordinal not in range(128)"), w).

#[export] Instance env : Env := {|
  World := nat;
  serper_post := search;
  olostep_post := Demo2.scrape;
  quote_plus := quote;
  str_validator := Demo.strict_str;
  str_validator_str := λ s, eq_refl;
  validation_error := λ _ _ _ _,
    Exn "ValidationError" "1 validation error for SerpedSite";
  print_out := write;
|}.

Definition start : state (env:=env) := {| net := 0; stdout := [] |}.
End Demo3.

(** * Facts *)

(** ** The interlacer *)

Section InterlacerFacts.
Context {A : Type}.
Implicit Types (lists : list (list A)) (l : list A).

Lemma foldl_max_list n ns : foldl Nat.max n ns = n `max` max_list ns.
Proof.
  revert n. induction ns as [|m ns IH]; intros n; simpl; [lia|].
  rewrite IH. lia.
Qed.

Lemma max_len_guarded lists :
  (if py_truthy lists then py_max (length <$> lists) else Ok 0)
  = Ok (max_list (length <$> lists)).
Proof.
  destruct lists as [|l lists]; simpl; [done|].
  by rewrite foldl_max_list.
Qed.

(** One list at one position: its element there, if it has one. *)
Lemma take_rank_option_list i (result : list A) l :
  take_rank i result l = Ok (result ++ option_list (l !! i)).
Proof.
  unfold take_rank, py_index. case_bool_decide as Hlt.
  - destruct (lookup_lt_is_Some_2 l i Hlt) as [x ->]. done.
  - rewrite (lookup_ge_None_2 l i) by lia. simpl. by rewrite app_nil_r.
Qed.

(** The inner loop appends one rank. *)
Lemma inner_loop_rank i lists (result : list A) :
  for_each lists (take_rank i) result = Ok (result ++ rank_row lists i).
Proof.
  revert result. induction lists as [|l lists IH]; intros result.
  - simpl. by rewrite app_nil_r.
  - cbn [for_each]. rewrite take_rank_option_list. simpl.
    rewrite IH, <-app_assoc. by destruct (l !! i).
Qed.

(** The outer loop appends the ranks of the positions it visits. *)
Lemma outer_loop_ranks lists (positions : list nat) (result : list A) :
  for_each positions (λ result i, for_each lists (take_rank i) result) result
  = Ok (result ++ concat (rank_row lists <$> positions)).
Proof.
  revert result.
  induction positions as [|i positions IH]; intros result; simpl.
  - by rewrite app_nil_r.
  - rewrite inner_loop_rank. simpl. rewrite IH. by rewrite <-app_assoc.
Qed.

Lemma get_in_factor_order_round_robin lists :
  get_in_factor_order lists = Ok (round_robin lists).
Proof.
  unfold get_in_factor_order. rewrite max_len_guarded. simpl.
  by rewrite outer_loop_ranks.
Qed.

(** *** Ranks of a single list, and of a list put in front *)

Lemma rank_row_cons l lists i :
  rank_row (l :: lists) i = option_list (l !! i) ++ rank_row lists i.
Proof. unfold rank_row. simpl. by destruct (l !! i). Qed.

Lemma rank_row_app lists1 lists2 i :
  rank_row (lists1 ++ lists2) i = rank_row lists1 i ++ rank_row lists2 i.
Proof. apply omap_app. Qed.

Lemma ranks_snoc lists m :
  concat (rank_row lists <$> seq 0 (S m))
  = concat (rank_row lists <$> seq 0 m) ++ rank_row lists m.
Proof.
  rewrite seq_S, fmap_app, concat_app. simpl. by rewrite app_nil_r.
Qed.

Lemma take_snoc l m : take (S m) l = take m l ++ option_list (l !! m).
Proof.
  destruct (l !! m) as [x|] eqn:Hm; simpl.
  - by apply take_S_r.
  - apply lookup_ge_None_1 in Hm.
    rewrite !take_ge by lia. by rewrite app_nil_r.
Qed.

Lemma rank_row_all_short lists i :
  (max_list (length <$> lists) ≤ i)%nat → rank_row lists i = [].
Proof.
  induction lists as [|l lists IH]; intros Hle; [done|].
  rewrite fmap_cons in Hle. simpl in Hle.
  rewrite rank_row_cons, IH by lia.
  rewrite (lookup_ge_None_2 l i) by lia. done.
Qed.

(** *** Length *)

Lemma length_ranks lists m :
  length (concat (rank_row lists <$> seq 0 m))
  = sum_list ((λ l, length (take m l)) <$> lists).
Proof.
  induction m as [|m IH].
  - simpl. induction lists as [|l lists IHl]; [done|].
    rewrite fmap_cons. simpl. done.
  - rewrite ranks_snoc, length_app, IH. clear IH.
    induction lists as [|l lists IHl]; [done|].
    rewrite !fmap_cons, rank_row_cons, length_app, take_snoc, length_app.
    cbn [sum_list sum_list_with id]. lia.
Qed.

Lemma length_round_robin lists :
  length (round_robin lists) = sum_list (length <$> lists).
Proof.
  unfold round_robin. rewrite length_ranks.
  assert (Hall : Forall (λ l, (length l ≤ max_list (length <$> lists))%nat)
                        lists).
  { apply Forall_forall. intros l Hl.
    apply max_list_elem_of_le, list_elem_of_fmap_2, Hl. }
  revert Hall. generalize (max_list (length <$> lists)) as m. intros m.
  induction 1 as [|l lists Hl _ IH]; [done|].
  rewrite !fmap_cons, take_ge by done. simpl. by rewrite IH.
Qed.

(** *** Order *)

Lemma sublist_option_list l lists i :
  l ∈ lists → option_list (l !! i) `sublist_of` rank_row lists i.
Proof.
  intros Hl. destruct (l !! i) as [x|] eqn:Hx; simpl.
  - apply list_elem_of_split in Hl as (lists1 & lists2 & ->).
    rewrite rank_row_app, rank_row_cons, Hx. simpl.
    apply sublist_inserts_l, sublist_skip, sublist_nil_l.
  - apply sublist_nil_l.
Qed.

Lemma sublist_take_ranks l lists m :
  l ∈ lists → take m l `sublist_of` concat (rank_row lists <$> seq 0 m).
Proof.
  intros Hl. induction m as [|m IH].
  - rewrite take_0. apply sublist_nil_l.
  - rewrite take_snoc, ranks_snoc.
    apply sublist_app; [done|]. by apply sublist_option_list.
Qed.

Lemma sublist_round_robin l lists :
  l ∈ lists → l `sublist_of` round_robin lists.
Proof.
  intros Hl. unfold round_robin.
  rewrite <-(take_ge l (max_list (length <$> lists))) at 1.
  - by apply sublist_take_ranks.
  - apply max_list_elem_of_le, list_elem_of_fmap_2, Hl.
Qed.

(** *** Positions *)

Lemma length_ranks_mono lists m n :
  (m ≤ n)%nat →
  (length (concat (rank_row lists <$> seq 0 m))
   ≤ length (concat (rank_row lists <$> seq 0 n)))%nat.
Proof.
  intros Hmn. replace n with (m + (n - m))%nat by lia.
  rewrite seq_app, fmap_app, concat_app, length_app. lia.
Qed.

Lemma rank_row_middle lists k l i x :
  lists !! k = Some l → l !! i = Some x →
  rank_row lists i
  = rank_row (take k lists) i ++ x :: rank_row (drop (S k) lists) i.
Proof.
  intros Hk Hi. rewrite <-(take_drop_middle lists k l Hk) at 1.
  by rewrite rank_row_app, rank_row_cons, Hi.
Qed.

Lemma lookup_lt_max_len lists k l i x :
  lists !! k = Some l → l !! i = Some x →
  (i < max_list (length <$> lists))%nat.
Proof.
  intros Hk Hi. apply lookup_lt_Some in Hi.
  assert (length l ≤ max_list (length <$> lists))%nat; [|lia].
  apply max_list_elem_of_le, list_elem_of_fmap_2.
  by eapply list_elem_of_lookup_2.
Qed.

Lemma round_robin_lookup lists k l i x :
  lists !! k = Some l → l !! i = Some x →
  round_robin lists !! rr_index lists k i = Some x.
Proof.
  intros Hk Hi. unfold round_robin, rr_index.
  pose proof (lookup_lt_max_len _ _ _ _ _ Hk Hi) as Hlt.
  replace (max_list (length <$> lists))
    with (i + S (max_list (length <$> lists) - S i))%nat by lia.
  rewrite seq_app, fmap_app, concat_app. simpl.
  rewrite (rank_row_middle lists k l i x Hk Hi).
  rewrite <-(app_assoc (rank_row (take k lists) i)), app_assoc.
  apply list_lookup_middle. by rewrite length_app.
Qed.

Lemma rr_index_lt lists k l i j :
  lists !! k = Some l → (i < j)%nat → (i < length l)%nat →
  (rr_index lists k i < rr_index lists k j)%nat.
Proof.
  intros Hk Hij Hi. destruct (lookup_lt_is_Some_2 l i Hi) as [x Hx].
  unfold rr_index.
  pose proof (length_ranks_mono lists (S i) j ltac:(lia)) as Hmono.
  rewrite ranks_snoc, length_app in Hmono.
  rewrite (rank_row_middle lists k l i x Hk Hx), length_app in Hmono.
  simpl in Hmono. lia.
Qed.

(** *** Empty input *)

Lemma round_robin_all_empty lists :
  Forall (λ l, l = []) lists → round_robin lists = [].
Proof.
  intros Hall. unfold round_robin.
  assert (max_list (length <$> lists) = 0%nat) as ->; [|done].
  induction Hall as [|l lists -> _ IH]; [done|].
  rewrite fmap_cons. simpl. by rewrite IH.
Qed.

(** *** The claims on the interlacer *)

(** C1. The interlacer merges round-robin by rank position: its output is
    the concatenation, for the positions [0 .. max length - 1] in order,
    of the elements that the lists have at that position, the lists taken
    in their given order. In particular [[a,b],[c,d,e]] is merged into
    [a,c,b,d,e]. *)
Theorem get_in_factor_order_by_rank lists :
  get_in_factor_order lists
  = Ok (concat ((λ i, omap (λ lst, lst !! i) lists)
                  <$> seq 0 (max_list (length <$> lists))))
  ∧ ∀ a b c d e : A,
      get_in_factor_order [[a; b]; [c; d; e]] = Ok [a; c; b; d; e].
Proof.
  split.
  - apply get_in_factor_order_round_robin.
  - intros. by rewrite get_in_factor_order_round_robin.
Qed.

(** C3. The interlacing has as many elements as the input lists have
    together, and every input list keeps its internal order in it: the
    list is a subsequence of the output, its element number [i] sits at
    position [rr_index lists k i] of the output, and these positions
    grow with [i]. This holds for all input lists, empty ones included. *)
Theorem get_in_factor_order_length_order lists :
  ∃ out,
    get_in_factor_order lists = Ok out
    ∧ length out = sum_list (length <$> lists)
    ∧ (∀ l, l ∈ lists → l `sublist_of` out)
    ∧ (∀ k l i x, lists !! k = Some l → l !! i = Some x →
         out !! rr_index lists k i = Some x)
    ∧ (∀ k l i j, lists !! k = Some l → (i < j < length l)%nat →
         (rr_index lists k i < rr_index lists k j)%nat).
Proof.
  exists (round_robin lists). split_and!.
  - apply get_in_factor_order_round_robin.
  - apply length_round_robin.
  - intros l. apply sublist_round_robin.
  - apply round_robin_lookup.
  - intros k l i j Hk [Hij Hj]. eapply rr_index_lt; [done|lia..].
Qed.

(** C8. The interlacer is total on empty input: with no lists at all, or
    with lists that are all empty, it returns the empty list and raises
    nothing. *)
Theorem get_in_factor_order_empty :
  get_in_factor_order (A:=A) [] = Ok []
  ∧ ∀ lists, Forall (λ l, l = []) lists → get_in_factor_order lists = Ok [].
Proof.
  split; [done|]. intros lists Hall.
  by rewrite get_in_factor_order_round_robin, round_robin_all_empty.
Qed.
End InterlacerFacts.

(** ** The clients *)

#[local] Set Warnings "-clear-no-such-hyp".

Section ClientFacts.
Context {env : Env}.
Implicit Types (s : state) (sites : list SerpedSite) (seen : gset string).

(** *** Running [io] code *)

Lemma io_bind_run {A B} (m : io A) (k : A → io B) s :
  (m ≫= k) s
  = match m s with
    | (Ok a, s') => k a s'
    | (Raise e, s') => (Raise e, s')
    end.
Proof. done. Qed.

Lemma io_ret_run {A} (a : A) s : mret (M:=io) a s = (Ok a, s).
Proof. done. Qed.

(** *** Deduplication *)

Lemma foldl_dedup_step seen sites (l : list SerpedSite) :
  (foldl dedup_step (seen, sites) l).2 = sites ++ keep_unseen seen l.
Proof.
  revert seen sites. induction l as [|site l IH]; intros seen sites; simpl.
  - by rewrite app_nil_r.
  - case_bool_decide; rewrite IH; [|done]. by rewrite <-app_assoc.
Qed.

Lemma deduplicate_keep_unseen (l : list SerpedSite) :
  deduplicate l = keep_unseen ∅ l.
Proof. unfold deduplicate. by rewrite foldl_dedup_step. Qed.

Lemma keep_unseen_fresh seen (l : list SerpedSite) site :
  site ∈ keep_unseen seen l → url site ∉ seen.
Proof.
  revert seen. induction l as [|x l IH]; intros seen; simpl.
  - by intros ?%elem_of_nil.
  - case_bool_decide as Hx; [|by apply IH].
    intros [->|Hin%IH]%elem_of_cons; [done|]. set_solver.
Qed.

Lemma keep_unseen_NoDup seen (l : list SerpedSite) :
  NoDup (url <$> keep_unseen seen l).
Proof.
  revert seen. induction l as [|x l IH]; intros seen; simpl.
  - constructor.
  - case_bool_decide as Hx; [|by apply IH].
    rewrite fmap_cons. constructor; [|by apply IH].
    intros (y & Hy & Hin%keep_unseen_fresh)%list_elem_of_fmap.
    set_solver.
Qed.

Lemma keep_unseen_sublist seen (l : list SerpedSite) :
  keep_unseen seen l `sublist_of` l.
Proof.
  revert seen. induction l as [|x l IH]; intros seen; simpl.
  - constructor.
  - case_bool_decide; [apply sublist_skip|apply sublist_cons]; apply IH.
Qed.

Lemma keep_unseen_first seen (l : list SerpedSite) u :
  u ∉ seen → first_with_url u (keep_unseen seen l) = first_with_url u l.
Proof.
  unfold first_with_url.
  revert seen. induction l as [|x l IH]; intros seen Hu; simpl; [done|].
  case_bool_decide as Hx; simpl.
  - case_bool_decide as Hxu; [done|]. apply IH.
    intros [Heq%elem_of_singleton|?]%elem_of_union; [congruence|done].
  - rewrite bool_decide_false by set_solver. by apply IH.
Qed.

(** *** The batch fetcher *)

Lemma batch_loop queries n (results : list QueryOutcome) s :
  for_each queries
    (λ results query,
       try_except
         (sites ← fetch_serper query n; mret (results ++ [Sites sites]))
         (λ e, mret (results ++ [Failed e])))
    results s
  = (Ok (results ++ (batch_outcomes queries n s).1),
     (batch_outcomes queries n s).2).
Proof.
  revert results s.
  induction queries as [|q queries IH]; intros results s.
  - simpl. by rewrite app_nil_r.
  - cbn [for_each batch_outcomes]. rewrite io_bind_run.
    unfold try_except. rewrite io_bind_run.
    destruct (fetch_serper q n s) as [[sites|e] s1];
      rewrite io_ret_run, IH;
      destruct (batch_outcomes queries n s1) as [outs s2];
      simpl; by rewrite <-app_assoc.
Qed.

Lemma fetch_serper_batch_outcomes queries n s :
  fetch_serper_batch_by_limit queries n s
  = (Ok (batch_outcomes queries n s).1, (batch_outcomes queries n s).2).
Proof. unfold fetch_serper_batch_by_limit. by rewrite batch_loop. Qed.

Lemma batch_outcomes_length queries n s :
  length (batch_outcomes queries n s).1 = length queries.
Proof.
  revert s. induction queries as [|q queries IH]; intros s; simpl; [done|].
  destruct (fetch_serper q n s) as [r s1]. specialize (IH s1).
  destruct (batch_outcomes queries n s1). simpl in *. by rewrite IH.
Qed.

Lemma batch_outcomes_lookup queries n s i q :
  queries !! i = Some q →
  (batch_outcomes queries n s).1 !! i
  = Some (outcome_of
            (fetch_serper q n (batch_outcomes (take i queries) n s).2).1).
Proof.
  revert s i. induction queries as [|q' queries IH]; intros s i; [done|].
  destruct i as [|i]; simpl.
  - intros [= ->]. destruct (fetch_serper q n s) as [r s1].
    by destruct (batch_outcomes queries n s1).
  - intros Hq. destruct (fetch_serper q' n s) as [r s1].
    specialize (IH s1 i Hq).
    destruct (batch_outcomes queries n s1) as [outs s2].
    by destruct (batch_outcomes (take i queries) n s1).
Qed.

(** *** The orchestrator *)

Lemma encode_query_run (encoded_queries : list string) query :
  encode_query encoded_queries query
  = match quote_plus query with
    | Ok encoded => Ok (encoded_queries ++ [encoded])
    | Raise e => Raise e
    end.
Proof. done. Qed.

Lemma encode_loop_ok (queries encoded acc : list string) :
  Forall2 (λ query e, quote_plus query = Ok e) queries encoded →
  for_each queries encode_query acc = Ok (acc ++ encoded).
Proof.
  intros Hall. revert acc.
  induction Hall as [|q e queries encoded Hq _ IH]; intros acc.
  - simpl. by rewrite app_nil_r.
  - cbn [for_each]. rewrite encode_query_run, Hq. simpl.
    by rewrite IH, <-app_assoc.
Qed.

Lemma encode_loop_inv (queries acc out : list string) :
  for_each queries encode_query acc = Ok out →
  ∃ encoded,
    out = acc ++ encoded
    ∧ Forall2 (λ query e, quote_plus query = Ok e) queries encoded.
Proof.
  revert acc. induction queries as [|q queries IH]; intros acc.
  - simpl. intros [= <-]. exists []. by rewrite app_nil_r.
  - cbn [for_each]. rewrite encode_query_run.
    destruct (quote_plus q) as [e|e] eqn:Hq; [|discriminate].
    simpl. intros (encoded & -> & Hall)%IH.
    exists (e :: encoded). rewrite <-app_assoc. split; [done|].
    by constructor.
Qed.

Lemma encode_loop_raise (queries1 queries2 encoded1 acc : list string)
    query e :
  Forall2 (λ query e, quote_plus query = Ok e) queries1 encoded1 →
  quote_plus query = Raise e →
  for_each (queries1 ++ query :: queries2) encode_query acc = Raise e.
Proof.
  intros Hall Hq. revert acc.
  induction Hall as [|q1 e1 queries1 encoded1 Hq1 _ IH]; intros acc.
  - cbn [app for_each]. by rewrite encode_query_run, Hq.
  - cbn [app for_each]. rewrite encode_query_run, Hq1. simpl. apply IH.
Qed.

(** The loop of lines 181-185 prints the diagnostics of the failed
    queries in order and collects the lists of the others. *)
Lemma partition_loop_run queries (results : list QueryOutcome) k
    (fetched : list (list SerpedSite)) s :
  (k + length results ≤ length queries)%nat →
  for_each (enumerate k results) (partition_step queries) fetched s
  = (match (print_lines (omap diagnostic (zip (drop k queries) results))
                        s).1 with
     | Ok _ => Ok (fetched ++ successes results)
     | Raise e => Raise e
     end,
     (print_lines (omap diagnostic (zip (drop k queries) results)) s).2).
Proof.
  revert k fetched s.
  induction results as [|[sites|e] results IH]; intros k fetched s Hlen;
    simpl in Hlen.
  - simpl. rewrite zip_with_nil_r. simpl. by rewrite app_nil_r.
  - destruct (lookup_lt_is_Some_2 queries k) as [q Hq]; [lia|].
    cbn [enumerate for_each]. rewrite io_bind_run.
    cbn [partition_step]. rewrite io_ret_run, IH by lia.
    rewrite (drop_S _ _ _ Hq). unfold successes. simpl.
    by rewrite <-app_assoc.
  - destruct (lookup_lt_is_Some_2 queries k) as [q Hq]; [lia|].
    cbn [enumerate for_each]. rewrite io_bind_run.
    cbn [partition_step]. rewrite !io_bind_run.
    unfold py_index, lift. rewrite Hq. cbn beta iota.
    rewrite (drop_S _ _ _ Hq).
    cbn [zip_with omap list_omap diagnostic fst snd print_lines].
    rewrite io_bind_run.
    destruct (print _ s) as [[[]|e'] s1]; [|done].
    rewrite io_ret_run. by rewrite IH by lia.
Qed.

(** What [serp_and_process] does once the queries are url-encoded. *)
Lemma serp_and_process_run queries encoded n s :
  Forall2 (λ query e, quote_plus query = Ok e) queries encoded →
  serp_and_process queries n s
  = (match (print_lines
              (omap diagnostic (zip queries (batch_outcomes encoded n s).1))
              (batch_outcomes encoded n s).2).1 with
     | Ok _ =>
         Ok (deduplicate
               (round_robin (successes (batch_outcomes encoded n s).1)))
     | Raise e => Raise e
     end,
     (print_lines
        (omap diagnostic (zip queries (batch_outcomes encoded n s).1))
        (batch_outcomes encoded n s).2).2).
Proof.
  intros Hall. unfold serp_and_process. rewrite io_bind_run. unfold lift at 1.
  rewrite (encode_loop_ok _ _ [] Hall). cbn [app].
  rewrite io_bind_run, fetch_serper_batch_outcomes.
  pose proof (batch_outcomes_length encoded n s) as Hlen.
  rewrite <-(Forall2_length _ _ _ Hall) in Hlen.
  destruct (batch_outcomes encoded n s) as [outs s1]. simpl in *.
  rewrite io_bind_run, (partition_loop_run queries outs 0) by (simpl; lia).
  rewrite drop_0. cbn [app].
  destruct (print_lines _ s1) as [[[]|e] s2]; [|done]. cbn [fst snd].
  destruct (successes outs) as [|l lists] eqn:Hsucc; [done|].
  cbn [py_truthy]. rewrite io_bind_run. unfold lift.
  by rewrite get_in_factor_order_round_robin.
Qed.

Lemma serp_and_process_encoded queries n s r s' :
  serp_and_process queries n s = (r, s') →
  (∃ encoded,
     Forall2 (λ query e, quote_plus query = Ok e) queries encoded)
  ∨ (∃ e, r = Raise e ∧ s' = s).
Proof.
  unfold serp_and_process. rewrite io_bind_run. unfold lift at 1.
  destruct (for_each queries encode_query []) as [encoded|e] eqn:Hloop.
  - intros _. left.
    apply encode_loop_inv in Hloop as (encoded' & _ & Hall). eauto.
  - intros [= <- <-]. right. eauto.
Qed.

Lemma print_lines_stdout (lines : list string) s :
  (print_lines lines s).1 = Ok tt →
  stdout (print_lines lines s).2 = stdout s ++ lines.
Proof.
  revert s. induction lines as [|line lines IH]; intros s.
  - simpl. by rewrite app_nil_r.
  - cbn [print_lines].
    destruct (print line s) as [[[]|e] s1] eqn:Hprint; [|done].
    intros Hok%IH. rewrite Hok. unfold print in Hprint.
    destruct (print_out line (net s)) as [[e|] w]; [done|].
    injection Hprint as <-. simpl. by rewrite <-app_assoc.
Qed.

(** The loop with the set [seen] keeps the first occurrences. *)
Lemma keep_unseen_first_occurrences (before l : list SerpedSite) :
  keep_unseen (list_to_set (url <$> before)) l
  = concat (imap (λ i site,
                    if bool_decide
                         (url site
                          ∈ url <$> take (length before + i) (before ++ l))
                    then [] else [site])
                 l).
Proof.
  revert before. induction l as [|x l IH]; intros before; [done|].
  cbn [keep_unseen imap concat].
  rewrite Nat.add_0_r, take_app_length.
  assert (keep_unseen (list_to_set (url <$> before ++ [x])) l
          = concat (imap ((λ i site,
                             if bool_decide
                                  (url site
                                   ∈ url <$> take (length before + i)
                                               (before ++ x :: l))
                             then [] else [site]) ∘ S) l)) as Htail.
  { rewrite IH. f_equal. apply imap_ext. intros i site _. simpl.
    rewrite length_app, <-app_assoc. simpl.
    by replace (length before + 1 + i)%nat with (length before + S i)%nat
      by lia. }
  rewrite <-Htail, fmap_app, list_to_set_app_L. simpl.
  case_bool_decide as Hseen.
  - rewrite bool_decide_false
      by (by rewrite <-(elem_of_list_to_set (C:=gset string))).
    cbn [app]. do 2 f_equal. set_solver.
  - rewrite bool_decide_true
      by (by rewrite <-(elem_of_list_to_set (C:=gset string))).
    cbn [app]. f_equal. set_solver.
Qed.

Lemma deduplicate_first_occurrences (l : list SerpedSite) :
  deduplicate l = first_occurrences l.
Proof.
  rewrite deduplicate_keep_unseen.
  exact (keep_unseen_first_occurrences [] l).
Qed.

(** *** The single-query fetcher *)

Lemma append_site_run sites site_data :
  append_site sites site_data
  = match site_of site_data with
    | Ok site => Ok (sites ++ [site])
    | Raise e => Raise e
    end.
Proof. done. Qed.


Lemma str_if_present_default d key :
  str_if_present d key = true →
  ∃ v, default (PStr "") (d !! key) = PStr v.
Proof.
  unfold str_if_present.
  destruct (d !! key) as [[]|]; try discriminate; simpl; eauto.
Qed.

Lemma site_of_well_formed site_data :
  well_formed_entry site_data = true → ∃ site, site_of site_data = Ok site.
Proof.
  destruct site_data as [| | | | |?|d]; try discriminate. simpl.
  rewrite !andb_true_iff. intros [[[Hl Ht] Hsn] Hso].
  apply str_if_present_default in Hl as [u Hu], Ht as [t Ht],
    Hso as [so Hso].
  assert (∃ sn, (if bool_decide (is_Some (d !! "snippet"))
                 then default (PStr "") (d !! "snippet") else PStr "")
                = PStr sn) as [sn Hsn'].
  { case_bool_decide; [by apply str_if_present_default|eauto]. }
  rewrite Hu, Ht, Hsn', Hso. unfold SerpedSite_new, optional_str_validator.
  rewrite !str_validator_str. simpl. eauto.
Qed.

Lemma site_loop_inv (items : list pyval) sites out :
  for_each items append_site sites = Ok out →
  ∃ new, out = sites ++ new
         ∧ Forall2 (λ site_data site, site_of site_data = Ok site) items new.
Proof.
  revert sites. induction items as [|site_data items IH]; intros sites.
  - simpl. intros [= <-]. exists []. by rewrite app_nil_r.
  - cbn [for_each]. rewrite append_site_run.
    destruct (site_of site_data) as [site|e] eqn:Hsite; [|discriminate].
    simpl. intros (new & -> & Hnew)%IH.
    exists (site :: new). rewrite <-app_assoc. split; [done|].
    by constructor.
Qed.

Lemma site_loop_total (items : list pyval) sites :
  Forall (λ site_data, well_formed_entry site_data = true) items →
  ∃ out, for_each items append_site sites = Ok out.
Proof.
  intros Hall. revert sites.
  induction Hall as [|site_data items Hwf _ IH]; intros sites.
  - simpl. eauto.
  - cbn [for_each]. rewrite append_site_run.
    destruct (site_of_well_formed _ Hwf) as [site ->]. simpl. apply IH.
Qed.

Lemma fetch_serper_answered query n s data w' :
  answers (serper_post query (net s)) data w' →
  fetch_serper query n s
  = (organic ← py_get data "organic" (PList []);
     items ← slice_items organic n;
     for_each items append_site [],
     {| net := w'; stdout := stdout s |}).
Proof.
  intros (response & Hpost & Hstatus & Hjson).
  unfold fetch_serper, call, raise_for_status.
  rewrite io_bind_run, Hpost. cbn beta iota.
  rewrite io_bind_run. unfold lift at 1. rewrite Hstatus. cbn beta iota.
  rewrite io_bind_run. unfold lift at 1. rewrite Hjson. cbn beta iota.
  rewrite io_bind_run. unfold lift at 1.
  destruct (py_get data "organic" (PList [])) as [organic|e]; [|done].
  cbn beta iota. rewrite io_bind_run. unfold lift at 1.
  cbn [mbind pyres_bind]. by destruct (slice_items organic n).
Qed.


Lemma length_slice_to {A} (l : list A) (n : Z) :
  (0 ≤ n)%Z →
  Z.of_nat (length (slice_to l n)) = Z.min n (Z.of_nat (length l)).
Proof.
  intros Hn. unfold slice_to.
  rewrite (proj2 (Z.ltb_ge n 0)) by done. rewrite length_take. lia.
Qed.

(** *** First occurrences *)

Lemma first_with_url_Some u (l : list SerpedSite) site :
  first_with_url u l = Some site → site ∈ l ∧ url site = u.
Proof.
  unfold first_with_url. intros [Hin Hu]%find_some.
  apply list_elem_of_In in Hin. by apply bool_decide_eq_true in Hu.
Qed.

Lemma first_with_url_is_Some (l : list SerpedSite) site :
  site ∈ l → is_Some (first_with_url (url site) l).
Proof.
  unfold first_with_url. induction 1 as [site l|site x l _ IH]; simpl.
  - rewrite bool_decide_true by done. eauto.
  - case_bool_decide; eauto.
Qed.

Lemma first_with_url_NoDup (l : list SerpedSite) site :
  NoDup (url <$> l) → site ∈ l → first_with_url (url site) l = Some site.
Proof.
  unfold first_with_url. induction l as [|x l IH]; [by intros _ ?%elem_of_nil|].
  rewrite fmap_cons, NoDup_cons. intros [Hx Hl] Hin. simpl.
  apply elem_of_cons in Hin as [->|Hin].
  - by rewrite bool_decide_true.
  - rewrite bool_decide_false; [by apply IH|].
    intros Heq. apply Hx. rewrite Heq. by apply list_elem_of_fmap_2.
Qed.

Lemma successes_all_failed (outs : list QueryOutcome) :
  Forall is_failure outs → successes outs = [].
Proof.
  induction 1 as [|[sites|e] outs Hfail _ IH]; [done|done|].
  unfold successes in *. simpl. apply IH.
Qed.

(** *** The claims on the orchestrator *)

(** C2. Whenever [serp_and_process] returns, its output is the
    deduplication of the interlaced results: it consists of the sites of
    the interlaced input at the positions where the url occurs for the
    first time, in that order. So no two of its sites have the same url;
    for every site of the interlaced input, the first site with that url
    in interlaced order is in the output and is the only site of the output
    with that url; and the output is a subsequence of the interlaced input.
    It does return when the queries can be url-encoded and the diagnostics
    printed. *)
Theorem serp_and_process_deduplicated queries n s :
  (∀ out s',
     serp_and_process queries n s = (Ok out, s') →
     ∃ (encoded : list string) (interlaced : list SerpedSite),
       Forall2 (λ query e, quote_plus query = Ok e) queries encoded
       ∧ get_in_factor_order (successes (batch_outcomes encoded n s).1)
         = Ok interlaced
       ∧ out = first_occurrences interlaced
       ∧ NoDup (url <$> out)
       ∧ (∀ site, site ∈ interlaced →
            ∃ first, first_with_url (url site) interlaced = Some first
                     ∧ first ∈ out
                     ∧ ∀ other, other ∈ out → url other = url site →
                                other = first)
       ∧ out `sublist_of` interlaced)
  ∧ (∀ encoded : list string,
       Forall2 (λ query e, quote_plus query = Ok e) queries encoded →
       (print_lines
          (omap diagnostic (zip queries (batch_outcomes encoded n s).1))
          (batch_outcomes encoded n s).2).1 = Ok tt →
       ∃ out s', serp_and_process queries n s = (Ok out, s')).
Proof.
  split.
  - intros out s' Hrun.
    destruct (serp_and_process_encoded _ _ _ _ _ Hrun)
      as [[encoded Hall]|(e & [=] & _)].
    rewrite (serp_and_process_run _ _ _ _ Hall) in Hrun.
    destruct (print_lines _ _) as [[[]|e] s2]; [|discriminate].
    injection Hrun as <- <-.
    set (interlaced :=
           round_robin (successes (batch_outcomes encoded n s).1)).
    exists encoded, interlaced. split; [done|].
    split; [apply get_in_factor_order_round_robin|].
    split; [apply deduplicate_first_occurrences|].
    rewrite deduplicate_keep_unseen. split_and!.
    + apply keep_unseen_NoDup.
    + intros site [first Hfirst]%first_with_url_is_Some.
      exists first. split; [done|].
      rewrite <-(keep_unseen_first ∅) in Hfirst by apply not_elem_of_empty.
      split; [by apply first_with_url_Some in Hfirst as [? _]|].
      intros other Hin Hurl. rewrite <-Hurl in Hfirst.
      rewrite first_with_url_NoDup in Hfirst
        by (done || apply keep_unseen_NoDup).
      congruence.
    + apply keep_unseen_sublist.
  - intros encoded Hall Hprint.
    rewrite (serp_and_process_run _ _ _ _ Hall), Hprint. eauto.
Qed.

(** C4, as amended. For queries that can be url-encoded,
    [serp_and_process] does not raise for individual query failures as
    long as the diagnostics of the failed queries can be printed: it
    returns, the result is empty when every query failed, and in general
    it is the deduplicated interlacing of the result lists of the queries
    that succeeded, the failed ones being dropped. *)
Theorem serp_and_process_tolerates_failures queries encoded n s :
  Forall2 (λ query e, quote_plus query = Ok e) queries encoded →
  (print_lines
     (omap diagnostic (zip queries (batch_outcomes encoded n s).1))
     (batch_outcomes encoded n s).2).1 = Ok tt →
  ∃ out s',
    serp_and_process queries n s = (Ok out, s')
    ∧ (Forall is_failure (batch_outcomes encoded n s).1 → out = [])
    ∧ out = first_occurrences
              (round_robin (successes (batch_outcomes encoded n s).1)).
Proof.
  intros Hall Hprint.
  rewrite (serp_and_process_run _ _ _ _ Hall), Hprint.
  eexists _, _. split; [done|]. split.
  - intros Hfail. by rewrite (successes_all_failed _ Hfail).
  - apply deduplicate_first_occurrences.
Qed.

(** *** The claim on the batch fetcher *)

(** C5. The batch fetcher never raises and returns one outcome per query,
    in the order of the queries: the outcome number [i] is the result of
    the single-query fetcher on query number [i], run in the state that the
    batch of the earlier queries leaves, recorded as [Sites] with the
    result list when the call returned and as [Failed] with the exception
    when it raised. *)
Theorem fetch_serper_batch_by_limit_outcomes queries n s :
  ∃ outs s',
    fetch_serper_batch_by_limit queries n s = (Ok outs, s')
    ∧ length outs = length queries
    ∧ ∀ i query, queries !! i = Some query →
        outs !! i
        = Some (match (fetch_serper query n
                         (fetch_serper_batch_by_limit (take i queries) n s).2).1
                with
                | Ok sites => Sites sites
                | Raise e => Failed e
                end).
Proof.
  eexists _, _. split; [apply fetch_serper_batch_outcomes|]. split.
  - apply batch_outcomes_length.
  - intros i query Hq. rewrite fetch_serper_batch_outcomes. simpl.
    by rewrite (batch_outcomes_lookup _ _ _ _ _ Hq).
Qed.

(** *** The claims on the single-query fetcher *)

Lemma fetch_serper_organic query n s d entries w' :
  answers (serper_post query (net s)) (PDict d) w' →
  d !! "organic" = Some (PList entries) →
  fetch_serper query n s
  = (for_each (slice_to entries n) append_site [],
     {| net := w'; stdout := stdout s |}).
Proof.
  intros Hans Horg. rewrite (fetch_serper_answered _ _ _ _ _ Hans).
  unfold py_get. by rewrite Horg.
Qed.

(** C6. With [max_results = N >= 0] and a response whose organic array has
    [M] entries, the list that the fetcher returns has exactly [N] sites
    when [M >= N] and exactly [M] sites when [M < N]; and it does return,
    in both cases, when the sliced entries are well-formed records. *)
Theorem fetch_serper_count query (N : Z) s d entries w' :
  (0 ≤ N)%Z →
  answers (serper_post query (net s)) (PDict d) w' →
  d !! "organic" = Some (PList entries) →
  (∀ sites s',
     fetch_serper query N s = (Ok sites, s') →
     Z.of_nat (length sites)
     = (if (N <=? Z.of_nat (length entries))%Z
        then N else Z.of_nat (length entries)))
  ∧ (Forall (λ entry, well_formed_entry entry = true) (slice_to entries N) →
     ∃ sites,
       fetch_serper query N s
       = (Ok sites, {| net := w'; stdout := stdout s |})).
Proof.
  intros HN Hans Horg.
  rewrite (fetch_serper_organic _ _ _ _ _ _ Hans Horg). split.
  - intros sites s' [= Hloop _].
    apply site_loop_inv in Hloop as (new & -> & Hnew).
    apply Forall2_length in Hnew. simpl.
    rewrite <-Hnew, length_slice_to by done.
    destruct (Z.leb_spec N (Z.of_nat (length entries))); lia.
  - intros Hwf. destruct (site_loop_total _ [] Hwf) as [sites ->]. eauto.
Qed.


(** C10. When the decoded body is an object without the key [organic],
    the fetcher returns the empty list and raises nothing, and a batch
    starting with that query records for it a success with no sites. *)
Theorem fetch_serper_no_organic query queries n s d w' :
  answers (serper_post query (net s)) (PDict d) w' →
  d !! "organic" = None →
  fetch_serper query n s = (Ok [], {| net := w'; stdout := stdout s |})
  ∧ ∃ outs s',
      fetch_serper_batch_by_limit (query :: queries) n s
      = (Ok (Sites [] :: outs), s').
Proof.
  intros Hans Horg.
  assert (fetch_serper query n s
          = (Ok [], {| net := w'; stdout := stdout s |})) as Hfetch.
  { rewrite (fetch_serper_answered _ _ _ _ _ Hans).
    unfold py_get. rewrite Horg. simpl. unfold slice_to. simpl.
    by rewrite take_nil. }
  split; [done|]. rewrite fetch_serper_batch_outcomes. simpl.
  rewrite Hfetch. destruct (batch_outcomes queries n _) as [outs s2]. eauto.
Qed.

(** *** The scrape client *)

(** A body without the key [result] makes [data["result"]] raise. *)
Lemma scrape_url_no_result url format wait_ms timeout s d w' :
  answers (olostep_post url (format_str format) wait_ms timeout (net s))
          (PDict d) w' →
  d !! "result" = None →
  scrape_url url format wait_ms timeout s
  = (Raise (KeyError "result"), {| net := w'; stdout := stdout s |}).
Proof.
  intros (response & Hpost & Hstatus & Hjson) Hresult.
  unfold scrape_url, call, raise_for_status.
  rewrite io_bind_run, Hpost. cbn beta iota.
  rewrite io_bind_run. unfold lift at 1. rewrite Hstatus. cbn beta iota.
  rewrite io_bind_run. unfold lift at 1. rewrite Hjson. cbn beta iota.
  rewrite io_bind_run. unfold lift at 1, py_getitem. by rewrite Hresult.
Qed.

(** C9, as amended. When the scrape provider answers with a success
    status and a body whose [result] is an object, [scrape_url] returns the
    value of the key [<format>_content] of that object, and returns [None],
    without raising, when the object has no such key. *)
Theorem scrape_url_content url format wait_ms timeout s d result w' :
  answers (olostep_post url (format_str format) wait_ms timeout (net s))
          (PDict d) w' →
  d !! "result" = Some (PDict result) →
  (∀ content,
     result !! (format_str format +:+ "_content") = Some content →
     scrape_url url format wait_ms timeout s
     = (Ok content, {| net := w'; stdout := stdout s |}))
  ∧ (result !! (format_str format +:+ "_content") = None →
     scrape_url url format wait_ms timeout s
     = (Ok PNone, {| net := w'; stdout := stdout s |})).
Proof.
  intros (response & Hpost & Hstatus & Hjson) Hresult.
  assert (scrape_url url format wait_ms timeout s
          = (Ok (default PNone (result !! (format_str format +:+ "_content"))),
             {| net := w'; stdout := stdout s |})) as ->.
  { unfold scrape_url, call, raise_for_status.
    rewrite io_bind_run, Hpost. cbn beta iota.
    rewrite io_bind_run. unfold lift at 1. rewrite Hstatus. cbn beta iota.
    rewrite io_bind_run. unfold lift at 1. rewrite Hjson. cbn beta iota.
    rewrite io_bind_run. unfold lift at 1, py_getitem. rewrite Hresult.
    done. }
  split.
  - by intros content ->.
  - by intros ->.
Qed.
End ClientFacts.

(** ** Instances on concrete inputs *)

#[local] Existing Instance Demo.env.

Lemma get_in_factor_order_empty_witness :
  Forall (λ l : list nat, l = []) [[]; []; []]
  ∧ get_in_factor_order [[]; []; []] = Ok ([] : list nat).
Proof.
  split; [by repeat constructor|].
  apply (proj2 (get_in_factor_order_empty (A:=nat))). by repeat constructor.
Defined.

Lemma get_in_factor_order_length_order_witness :
  ∃ out,
    get_in_factor_order [[1; 2]; [3; 4; 5]] = Ok out
    ∧ length out = 5%nat
    ∧ [3; 4; 5] `sublist_of` out
    ∧ out !! 3%nat = Some 4
    ∧ (rr_index [[1; 2]; [3; 4; 5]] 1 0 < rr_index [[1; 2]; [3; 4; 5]] 1 1)%nat.
Proof.
  destruct (get_in_factor_order_length_order [[1; 2]; [3; 4; 5]])
    as (out & Hrun & Hlen & Hsub & Hpos & Hmono).
  exists out. split_and!.
  - exact Hrun.
  - exact Hlen.
  - apply Hsub. apply list_elem_of_further, list_elem_of_here.
  - apply (Hpos 1%nat [3; 4; 5] 1%nat 4); reflexivity.
  - apply (Hmono 1%nat [3; 4; 5]); [reflexivity|simpl; lia].
Defined.

Lemma demo_encoded :
  Forall2 (λ query e, quote_plus (Env:=Demo.env) query = Ok e)
          ["donor atlas"; "down"; "x/y"] ["donor+atlas"; "down"; "x%2Fy"].
Proof. repeat constructor. Qed.

Lemma serp_and_process_deduplicated_witness :
  ∃ out s',
    serp_and_process (env:=Demo.env) ["donor atlas"; "down"; "x/y"] 2
                     Demo.start
    = (Ok out, s')
    ∧ url <$> out = ["https://a.example"; "https://b.example"]
    ∧ NoDup (url <$> out).
Proof.
  destruct (serp_and_process_deduplicated (env:=Demo.env)
              ["donor atlas"; "down"; "x/y"] 2 Demo.start)
    as [Hout Hreturns].
  destruct (Hreturns _ demo_encoded eq_refl) as (out & s' & Hrun).
  destruct (Hout out s' Hrun)
    as (encoded & interlaced & Hall & Hinter & Hfirst & Hnodup & _).
  exists out, s'. split; [exact Hrun|]. split; [|exact Hnodup].
  assert (encoded = ["donor+atlas"; "down"; "x%2Fy"]) as ->.
  { apply Forall2_cons_inv_l in Hall as (e1 & l1 & [= <-] & Hall & ->).
    apply Forall2_cons_inv_l in Hall as (e2 & l2 & [= <-] & Hall & ->).
    apply Forall2_cons_inv_l in Hall as (e3 & l3 & [= <-] & Hall & ->).
    apply Forall2_nil_inv_l in Hall as ->. reflexivity. }
  vm_compute in Hinter. injection Hinter as <-.
  rewrite Hfirst. reflexivity.
Defined.

Lemma serp_and_process_tolerates_failures_witness :
  (∃ s', serp_and_process (env:=Demo.env) ["donor atlas"; "down"; "x/y"] 2
                          Demo.start
         = (Ok [ {| url := "https://a.example"; title := "A";
                    snippet := "first hit"; rich_snippet := None;
                    source := Some "A Corp" |};
                 {| url := "https://b.example"; title := "B";
                    snippet := ""; rich_snippet := None;
                    source := Some "" |} ],
            s'))
  ∧ (∃ s', serp_and_process (env:=Demo.env) ["down"; "denied"] 5 Demo.start
           = (Ok [], s')).
Proof.
  split.
  - destruct (serp_and_process_tolerates_failures (env:=Demo.env)
                ["donor atlas"; "down"; "x/y"]
                ["donor+atlas"; "down"; "x%2Fy"] 2 Demo.start
                demo_encoded eq_refl)
      as (out & s' & Hrun & _ & Hout).
    exists s'. rewrite Hrun, Hout. reflexivity.
  - destruct (serp_and_process_tolerates_failures (env:=Demo.env)
                ["down"; "denied"] ["down"; "denied"] 5 Demo.start)
      as (out & s' & Hrun & Hempty & _).
    + repeat constructor.
    + reflexivity.
    + exists s'. rewrite <-Hempty; [exact Hrun|].
      vm_compute. repeat constructor.
Defined.

(** A failed query whose diagnostic cannot be printed: the one query
    fails, and [serp_and_process] raises instead of returning the empty
    list. *)
Lemma serp_and_process_print_failure :
  quote_plus (Env:=Demo3.env) "café" = Ok "caf%C3%A9"
  ∧ (fetch_serper (env:=Demo3.env) "caf%C3%A9" 5 Demo3.start).1
    = Raise (Exn "ConnectionError" "connection refused")
  ∧ (serp_and_process (env:=Demo3.env) ["café"] 5 Demo3.start).1
    = Raise (Exn "UnicodeEncodeError" "ordinal not in range(128)")
  ∧ ¬ ∃ s', serp_and_process (env:=Demo3.env) ["café"] 5 Demo3.start
            = (Ok [], s').
Proof.
  split_and!; [reflexivity..|].
  intros [s' Hrun]. vm_compute in Hrun. discriminate Hrun.
Qed.

Lemma fetch_serper_batch_by_limit_outcomes_witness :
  ∃ outs s',
    fetch_serper_batch_by_limit (env:=Demo.env) ["donor"; "down"] 2 Demo.start
    = (Ok outs, s')
    ∧ length outs = 2%nat
    ∧ outs !! 1%nat = Some (Failed (Exn "ConnectionError" "connection refused")).
Proof.
  destruct (fetch_serper_batch_by_limit_outcomes (env:=Demo.env)
              ["donor"; "down"] 2 Demo.start)
    as (outs & s' & Hrun & Hlen & Hlookup).
  exists outs, s'. split; [exact Hrun|]. split; [exact Hlen|].
  exact (Hlookup 1%nat "down" eq_refl).
Defined.

Lemma demo_answers (query : string) (body : gmap string pyval) :
  Demo.search query 0%nat = (Ok (Demo.ok_response (PDict body)), 1%nat) →
  answers (env:=Demo.env) (serper_post query (net Demo.start)) (PDict body)
          1%nat.
Proof. intros Hq. eexists. split; [exact Hq|]. split; reflexivity. Qed.

Lemma fetch_serper_count_witness :
  ∃ sites,
    fetch_serper (env:=Demo.env) "donor" 2 Demo.start
    = (Ok sites, {| net := 1%nat; stdout := [] |})
    ∧ Z.of_nat (length sites) = 2%Z.
Proof.
  destruct (fetch_serper_count (env:=Demo.env) "donor" 2 Demo.start
              Demo.organic_dict Demo.organic_entries 1%nat)
    as [Hcount Hreturns].
  - lia.
  - by apply demo_answers.
  - reflexivity.
  - destruct Hreturns as [sites Hrun]; [vm_compute; repeat constructor|].
    exists sites. split; [exact Hrun|]. exact (Hcount _ _ Hrun).
Defined.


Lemma fetch_serper_no_organic_witness :
  fetch_serper (env:=Demo.env) "nothing" 3 Demo.start
  = (Ok [], {| net := 1%nat; stdout := [] |})
  ∧ ∃ outs s',
      fetch_serper_batch_by_limit (env:=Demo.env) ["nothing"; "donor"] 3
                                  Demo.start
      = (Ok (Sites [] :: outs), s').
Proof.
  apply (fetch_serper_no_organic (env:=Demo.env) "nothing" ["donor"] 3
           Demo.start Demo.no_organic_dict 1%nat).
  - by apply demo_answers.
  - reflexivity.
Defined.

Lemma scrape_url_content_witness :
  scrape_url (env:=Demo.env) "https://donors.example" markdown 1000 60
             Demo.start
  = (Ok (PStr "# Donors"), {| net := 1%nat; stdout := [] |})
  ∧ scrape_url (env:=Demo.env) "https://donors.example" html 1000 60
               Demo.start
    = (Ok PNone, {| net := 1%nat; stdout := [] |}).
Proof.
  assert (Hans : ∀ format,
            answers (env:=Demo.env)
              (olostep_post "https://donors.example" (format_str format)
                            1000 60 (net Demo.start))
              (PDict Demo.scrape_dict) 1%nat).
  { intros format. eexists. split; [reflexivity|]. split; reflexivity. }
  split.
  - apply (proj1 (scrape_url_content (env:=Demo.env) _ markdown _ _ _ _ _ _
                    (Hans markdown) eq_refl)).
    reflexivity.
  - apply (proj2 (scrape_url_content (env:=Demo.env) _ html _ _ _ _ _ _
                    (Hans html) eq_refl)).
    reflexivity.
Defined.

(** * Further facts *)

(** ** The interlacer *)

Section InterlacerMore.
Context {A : Type}.
Implicit Types (lists : list (list A)) (l : list A).

Lemma ranks_cons_perm l lists m :
  concat (rank_row (l :: lists) <$> seq 0 m)
  ≡ₚ take m l ++ concat (rank_row lists <$> seq 0 m).
Proof.
  induction m as [|m IH]; [done|].
  rewrite !ranks_snoc, rank_row_cons, take_snoc, IH, <-!app_assoc.
  apply Permutation_app_head. rewrite !app_assoc.
  apply Permutation_app_tail, Permutation_app_comm.
Qed.

Lemma ranks_perm_concat lists m :
  (max_list (length <$> lists) ≤ m)%nat →
  concat (rank_row lists <$> seq 0 m) ≡ₚ concat lists.
Proof.
  induction lists as [|l lists IH]; intros Hm.
  - clear Hm. induction m as [|m IHm]; [done|].
    by rewrite ranks_snoc, IHm.
  - rewrite fmap_cons in Hm. simpl in Hm.
    rewrite ranks_cons_perm, take_ge, IH by lia. done.
Qed.

Lemma rank_row_head lists : rank_row lists 0 = omap head lists.
Proof.
  unfold rank_row. apply list_omap_ext, Forall2_same_length_lookup_2; [done|].
  intros i x y Hx Hy. assert (x = y) as -> by congruence.
  by rewrite head_lookup.
Qed.

Lemma rank_row_tail lists i :
  rank_row lists (S i) = rank_row (tail <$> lists) i.
Proof.
  induction lists as [|l lists IH]; [done|].
  rewrite fmap_cons, !rank_row_cons, IH. by rewrite lookup_tail.
Qed.

Lemma max_len_tail lists :
  max_list (length <$> (tail <$> lists))
  = Nat.pred (max_list (length <$> lists)).
Proof.
  induction lists as [|l lists IH]; [done|].
  rewrite !fmap_cons. simpl. rewrite IH. destruct l; simpl; lia.
Qed.

Lemma round_robin_heads_tails lists :
  round_robin lists = omap head lists ++ round_robin (tail <$> lists).
Proof.
  unfold round_robin. rewrite max_len_tail, <-rank_row_head.
  destruct (max_list (length <$> lists)) as [|m] eqn:Hmax.
  - simpl. rewrite rank_row_all_short by lia. done.
  - cbn [seq fmap list_fmap concat Nat.pred]. f_equal.
    rewrite <-fmap_S_seq, <-list_fmap_compose. f_equal.
    apply list_fmap_ext. intros _ i _. simpl. apply rank_row_tail.
Qed.

Lemma rank_row_filter lists i :
  rank_row (filter (λ l, py_truthy l = true) lists) i = rank_row lists i.
Proof.
  induction lists as [|l lists IH]; [done|]. destruct l as [|x l].
  - rewrite filter_cons_False by done. by rewrite IH, rank_row_cons.
  - rewrite filter_cons_True by done. by rewrite !rank_row_cons, IH.
Qed.

Lemma max_len_filter lists :
  max_list (length <$> filter (λ l, py_truthy l = true) lists)
  = max_list (length <$> lists).
Proof.
  induction lists as [|l lists IH]; [done|]. destruct l as [|x l].
  - rewrite filter_cons_False by done. by rewrite IH.
  - rewrite filter_cons_True by done. rewrite !fmap_cons. simpl.
    by rewrite IH.
Qed.

Lemma rank_row_fmap {B} (f : A → B) lists i :
  rank_row (fmap (M:=list) f <$> lists) i = f <$> rank_row lists i.
Proof.
  induction lists as [|l lists IH]; [done|].
  rewrite fmap_cons, !rank_row_cons, fmap_app, IH, list_lookup_fmap.
  by destruct (l !! i).
Qed.

Lemma ranks_single l m : concat (rank_row [l] <$> seq 0 m) = take m l.
Proof.
  induction m as [|m IH]; [done|].
  rewrite ranks_snoc, IH, take_snoc, rank_row_cons. by rewrite app_nil_r.
Qed.

(** X1. The interlacing is a rearrangement of all the input elements:
    nothing is lost, nothing is added, and an element that occurs several
    times occurs as often in the output. *)
Theorem get_in_factor_order_permutation lists :
  ∃ out, get_in_factor_order lists = Ok out ∧ out ≡ₚ concat lists.
Proof.
  exists (round_robin lists). split.
  - apply get_in_factor_order_round_robin.
  - by apply ranks_perm_concat.
Qed.

(** X2. The interlacing starts with the heads of the lists that have one,
    in the lists' order, and goes on with the interlacing of the tails. *)
Theorem get_in_factor_order_heads_tails lists :
  ∃ rest,
    get_in_factor_order (tail <$> lists) = Ok rest
    ∧ get_in_factor_order lists = Ok (omap head lists ++ rest).
Proof.
  exists (round_robin (tail <$> lists)).
  rewrite !get_in_factor_order_round_robin.
  by rewrite (round_robin_heads_tails lists).
Qed.

(** X3. Empty input lists have no effect: removing them from the input
    leaves the interlacing unchanged. *)
Theorem get_in_factor_order_skips_empty lists :
  get_in_factor_order (filter (λ l, py_truthy l = true) lists)
  = get_in_factor_order lists.
Proof.
  rewrite !get_in_factor_order_round_robin. unfold round_robin.
  rewrite max_len_filter. do 2 f_equal.
  apply list_fmap_ext. intros _ i _. apply rank_row_filter.
Qed.

(** X4. Interlacing commutes with mapping a function over the elements:
    the interlacing of the mapped lists is the mapped interlacing. *)
Theorem get_in_factor_order_fmap {B} (f : A → B) lists :
  ∃ out,
    get_in_factor_order lists = Ok out
    ∧ get_in_factor_order (fmap (M:=list) f <$> lists) = Ok (f <$> out).
Proof.
  exists (round_robin lists). rewrite !get_in_factor_order_round_robin.
  split; [done|]. f_equal. unfold round_robin.
  rewrite <-list_fmap_compose.
  rewrite (list_fmap_ext (length ∘ fmap (M:=list) f) length lists)
    by (intros _ l _; apply length_fmap).
  generalize (seq 0 (max_list (length <$> lists))) as positions.
  induction positions as [|i positions IH]; [done|].
  rewrite !fmap_cons. simpl. by rewrite fmap_app, IH, rank_row_fmap.
Qed.

(** X5. A single input list comes back as it is. *)
Theorem get_in_factor_order_single l : get_in_factor_order [l] = Ok l.
Proof.
  rewrite get_in_factor_order_round_robin. unfold round_robin.
  rewrite ranks_single. f_equal. apply take_ge. simpl. lia.
Qed.
End InterlacerMore.

(** ** The search pipeline *)

Section PipelineMore.
Context {env : Env}.
Implicit Types (s : state) (sites : list SerpedSite) (seen : gset string).

(** *** Deduplication *)

Lemma keep_unseen_id seen (l : list SerpedSite) :
  (∀ site, site ∈ l → url site ∉ seen) → NoDup (url <$> l) →
  keep_unseen seen l = l.
Proof.
  revert seen. induction l as [|x l IH]; intros seen Hfresh Hnodup; [done|].
  rewrite fmap_cons, NoDup_cons in Hnodup. destruct Hnodup as [Hx Hl].
  simpl. rewrite bool_decide_true by (apply Hfresh; left). f_equal.
  apply IH; [|done]. intros site Hin.
  intros [Heq%elem_of_singleton|Hseen]%elem_of_union.
  - apply Hx. rewrite <-Heq. by apply list_elem_of_fmap_2.
  - by apply (Hfresh site); [right|].
Qed.

Lemma length_keep_unseen seen (l : list SerpedSite) :
  length (keep_unseen seen l) = size (list_to_set (url <$> l) ∖ seen).
Proof.
  revert seen. induction l as [|x l IH]; intros seen.
  - simpl. replace (∅ ∖ seen) with (∅ : gset string) by set_solver.
    by rewrite size_empty.
  - rewrite fmap_cons, list_to_set_cons. cbn [keep_unseen].
    case_bool_decide as Hx.
    + simpl. rewrite IH.
      assert (({[url x]} ∪ list_to_set (url <$> l)) ∖ seen
              = {[url x]} ∪ list_to_set (url <$> l) ∖ ({[url x]} ∪ seen))
        as ->.
      { apply set_eq. intros u. set_unfold.
        destruct (decide (u = url x)); naive_solver. }
      rewrite (size_union (C:=gset string) {[url x]}
                 (list_to_set (url <$> l) ∖ ({[url x]} ∪ seen)))
        by set_solver.
      by rewrite size_singleton.
    + rewrite IH. f_equal. set_solver.
Qed.

Lemma keep_unseen_app seen (l1 l2 : list SerpedSite) :
  keep_unseen seen (l1 ++ l2)
  = keep_unseen seen l1 ++ keep_unseen (list_to_set (url <$> l1) ∪ seen) l2.
Proof.
  revert seen. induction l1 as [|x l1 IH]; intros seen.
  - simpl. f_equal. set_solver.
  - rewrite fmap_cons, list_to_set_cons. cbn [app keep_unseen].
    case_bool_decide as Hx.
    + rewrite IH. cbn [app]. do 3 f_equal. set_solver.
    + rewrite IH. do 2 f_equal. set_solver.
Qed.

Lemma keep_unseen_filter seen seen' (l : list SerpedSite) :
  keep_unseen (seen ∪ seen') l
  = keep_unseen seen' (filter (λ site, url site ∉ seen) l).
Proof.
  revert seen'. induction l as [|x l IH]; intros seen'; [done|].
  cbn [keep_unseen]. destruct (decide (url x ∈ seen)) as [Hin|Hout].
  - rewrite filter_cons_False by (intros ?; done).
    rewrite bool_decide_false by set_solver. apply IH.
  - rewrite filter_cons_True by done. cbn [keep_unseen].
    destruct (decide (url x ∈ seen')) as [Hin'|Hout'].
    + rewrite !bool_decide_false by set_solver. apply IH.
    + rewrite !bool_decide_true by set_solver. f_equal.
      rewrite <-IH. f_equal. set_solver.
Qed.

(** X6. Deduplicating a list whose urls are pairwise distinct changes
    nothing. *)
Theorem deduplicate_distinct (l : list SerpedSite) :
  NoDup (url <$> l) → deduplicate l = l.
Proof.
  intros Hnodup. rewrite deduplicate_keep_unseen.
  apply keep_unseen_id; [|done]. intros. apply not_elem_of_empty.
Qed.

(** X7. Deduplicating twice is the same as deduplicating once. *)
Theorem deduplicate_idempotent (l : list SerpedSite) :
  deduplicate (deduplicate l) = deduplicate l.
Proof.
  rewrite !deduplicate_keep_unseen. apply keep_unseen_id.
  - intros. apply not_elem_of_empty.
  - apply keep_unseen_NoDup.
Qed.

(** X8. The deduplicated list has one site per distinct url of the
    input: its length is the number of distinct urls. *)
Theorem deduplicate_length (l : list SerpedSite) :
  length (deduplicate l) = size (list_to_set (url <$> l) : gset string).
Proof.
  rewrite deduplicate_keep_unseen, length_keep_unseen.
  by rewrite difference_empty_L.
Qed.

(** X9. Deduplication works from left to right: the deduplication of
    [l1 ++ l2] is that of [l1], followed by the deduplication of the sites
    of [l2] whose url does not occur in [l1]. *)
Theorem deduplicate_app (l1 l2 : list SerpedSite) :
  deduplicate (l1 ++ l2)
  = deduplicate l1
    ++ deduplicate (filter (λ site, url site ∉ url <$> l1) l2).
Proof.
  rewrite !deduplicate_keep_unseen, keep_unseen_app. f_equal.
  rewrite keep_unseen_filter. f_equal.
  apply list_filter_iff. intros site. by rewrite elem_of_list_to_set.
Qed.
(** *** The single-query fetcher, step by step *)

Lemma fetch_serper_run query n s :
  fetch_serper query n s
  = (response ← (serper_post query (net s)).1;
     _ ← raise_for_status response;
     data ← json response;
     organic ← py_get data "organic" (PList []);
     items ← slice_items organic n;
     for_each items append_site [],
     {| net := (serper_post query (net s)).2; stdout := stdout s |}).
Proof.
  unfold fetch_serper, call. rewrite io_bind_run.
  destruct (serper_post query (net s)) as [[response|e] w]; [|done].
  cbn [fst snd mbind pyres_bind]. rewrite io_bind_run. unfold lift at 1.
  destruct (raise_for_status response); [|done].
  cbn [mbind pyres_bind]. rewrite io_bind_run. unfold lift at 1.
  destruct (json response) as [data|e]; [|done].
  cbn [mbind pyres_bind]. rewrite io_bind_run. unfold lift at 1.
  destruct (py_get data "organic" (PList [])) as [organic|e]; [|done].
  cbn [mbind pyres_bind]. rewrite io_bind_run. unfold lift at 1.
  by destruct (slice_items organic n).
Qed.


Lemma slice_items_length v (n : Z) items :
  (0 ≤ n)%Z → slice_items v n = Ok items → (Z.of_nat (length items) ≤ n)%Z.
Proof.
  intros Hn. destruct v; try discriminate; simpl; intros [= <-].
  - rewrite length_fmap, length_slice_to by done. lia.
  - rewrite length_slice_to by done. lia.
Qed.

Lemma site_loop_raises (items : list pyval) sites :
  Exists (λ site_data, ∃ e, site_of site_data = Raise e) items →
  ∃ e, for_each items append_site sites = Raise e.
Proof.
  intros Hbad. revert sites.
  induction Hbad as [site_data items [e He]|site_data items _ IH];
    intros sites; cbn [for_each]; rewrite append_site_run.
  - rewrite He. simpl. eauto.
  - destruct (site_of site_data) as [site|e]; simpl; eauto.
Qed.

Lemma fetch_serper_success query n s sites s' :
  fetch_serper query n s = (Ok sites, s') →
  ∃ d items,
    answers (serper_post query (net s)) (PDict d) (net s')
    ∧ slice_items (default (PList []) (d !! "organic")) n = Ok items
    ∧ for_each items append_site [] = Ok sites.
Proof.
  rewrite fetch_serper_run. unfold answers, raise_for_status.
  destruct (serper_post query (net s)) as [[response|e] w]; [|done].
  cbn [fst snd mbind pyres_bind].
  destruct (status_error response) eqn:Hstatus; [done|].
  destruct (json response) as [data|e] eqn:Hjson; [|done].
  destruct data as [| | | | |?|d]; try done.
  cbn [mbind pyres_bind py_get].
  destruct (slice_items (default (PList []) (d !! "organic")) n)
    as [items|e] eqn:Hitems; [|done].
  intros [= Hloop <-]. exists d, items. split_and!; [|done..].
  exists response. by rewrite Hjson.
Qed.

(** X10. Whatever the outcome, a call of the fetcher sends exactly one
    request, with its query, and prints nothing. *)
Theorem fetch_serper_one_request query n s :
  (fetch_serper query n s).2
  = {| net := (serper_post query (net s)).2; stdout := stdout s |}.
Proof. by rewrite fetch_serper_run. Qed.

(** X11. The fetcher returns a list only when the provider answered with
    a success status and a body that decodes to an object; the sites then
    come from the sliced value of [organic]. *)
Theorem fetch_serper_returns_only_on_answer query n s sites s' :
  fetch_serper query n s = (Ok sites, s') →
  ∃ d items,
    answers (serper_post query (net s)) (PDict d) (net s')
    ∧ slice_items (default (PList []) (d !! "organic")) n = Ok items
    ∧ Forall2 (λ site_data site, site_of site_data = Ok site) items sites.
Proof.
  intros (d & items & Hans & Hitems & Hloop)%fetch_serper_success.
  exists d, items. split_and!; [done..|].
  by apply site_loop_inv in Hloop as (new & -> & Hnew).
Qed.

(** X12. The fetcher does not recover from a failed call: an exception
    of the request, of the status check or of the decoding of the body is
    raised unchanged. *)
Theorem fetch_serper_propagates query n s :
  (∀ e w, serper_post query (net s) = (Raise e, w) →
          (fetch_serper query n s).1 = Raise e)
  ∧ (∀ response e w,
       serper_post query (net s) = (Ok response, w) →
       status_error response = Some e →
       (fetch_serper query n s).1 = Raise e)
  ∧ (∀ response e w,
       serper_post query (net s) = (Ok response, w) →
       status_error response = None →
       json response = Raise e →
       (fetch_serper query n s).1 = Raise e).
Proof.
  rewrite fetch_serper_run. unfold raise_for_status. split_and!.
  - by intros e w ->.
  - intros response e w -> Hstatus. cbn [fst mbind pyres_bind].
    by rewrite Hstatus.
  - intros response e w -> Hstatus Hjson. cbn [fst mbind pyres_bind].
    rewrite Hstatus. cbn [mbind pyres_bind]. by rewrite Hjson.
Qed.


(** X14. A body that is not an object makes the fetcher raise the
    [AttributeError] of [.get]; an [organic] value that is [null], a
    boolean or a number makes it raise a [TypeError]. *)
Theorem fetch_serper_malformed_body query n s data w' :
  answers (serper_post query (net s)) data w' →
  ((∀ d, data ≠ PDict d) →
   fetch_serper query n s
   = (Raise (AttributeError data "get"),
      {| net := w'; stdout := stdout s |}))
  ∧ (∀ d v,
       data = PDict d → d !! "organic" = Some v →
       (∀ l, v ≠ PList l) → (∀ text, v ≠ PStr text) →
       (∀ d', v ≠ PDict d') →
       ∃ e, fetch_serper query n s
            = (Raise e, {| net := w'; stdout := stdout s |})
            ∧ exn_class e = "TypeError").
Proof.
  intros Hans. rewrite (fetch_serper_answered _ _ _ _ _ Hans). split.
  - intros Hdata. by destruct data as [| | | | |?|d]; [..|destruct (Hdata d)].
  - intros d v -> Horg Hlist Hstr Hdict. simpl. rewrite Horg. simpl.
    destruct v as [| | | |text|l|d']; simpl;
      [eauto..|by destruct (Hstr text)|by destruct (Hlist l)
      |by destruct (Hdict d')].
Qed.

(** X15. One sliced entry that is not an object fails the whole query:
    the fetcher raises and returns none of the other entries. *)
Theorem fetch_serper_bad_entry query n s d entries w' v :
  answers (serper_post query (net s)) (PDict d) w' →
  d !! "organic" = Some (PList entries) →
  v ∈ slice_to entries n →
  (∀ d', v ≠ PDict d') →
  ∃ e, fetch_serper query n s
       = (Raise e, {| net := w'; stdout := stdout s |}).
Proof.
  intros Hans Horg Hin Hv.
  rewrite (fetch_serper_organic _ _ _ _ _ _ Hans Horg).
  destruct (site_loop_raises (slice_to entries n) []) as [e ->]; [|eauto].
  apply Exists_exists. exists v. split; [done|].
  exists (AttributeError v "get").
  by destruct v as [| | | | |?|d']; [..|destruct (Hv d')].
Qed.

Lemma fetch_serper_length_le query (N : Z) s sites s' :
  (0 ≤ N)%Z →
  fetch_serper query N s = (Ok sites, s') →
  (Z.of_nat (length sites) ≤ N)%Z.
Proof.
  intros HN (d & items & _ & Hitems & Hloop)%fetch_serper_success.
  apply site_loop_inv in Hloop as (new & -> & Hnew).
  apply Forall2_length in Hnew. simpl. rewrite <-Hnew.
  by eapply slice_items_length.
Qed.

(** X16. With [num_sites_per_query = N >= 0] the fetcher never returns
    more than [N] sites, whatever the provider sends. *)
Theorem fetch_serper_at_most query (N : Z) s sites s' :
  (0 ≤ N)%Z →
  fetch_serper query N s = (Ok sites, s') →
  (Z.of_nat (length sites) ≤ N)%Z.
Proof. apply fetch_serper_length_le. Qed.
(** *** The batch fetcher and the orchestrator, with their effects *)

Lemma state_eta s : {| net := net s; stdout := stdout s |} = s.
Proof. by destruct s. Qed.

Lemma batch_outcomes_app queries1 queries2 n s :
  batch_outcomes (queries1 ++ queries2) n s
  = ((batch_outcomes queries1 n s).1
     ++ (batch_outcomes queries2 n (batch_outcomes queries1 n s).2).1,
     (batch_outcomes queries2 n (batch_outcomes queries1 n s).2).2).
Proof.
  revert s. induction queries1 as [|q queries1 IH]; intros s.
  - simpl. by destruct (batch_outcomes queries2 n s).
  - cbn [app batch_outcomes]. destruct (fetch_serper q n s) as [r s1].
    rewrite IH. by destruct (batch_outcomes queries1 n s1).
Qed.

Lemma batch_outcomes_state queries n s :
  (batch_outcomes queries n s).2
  = {| net := foldl (λ w query, (serper_post query w).2) (net s) queries;
       stdout := stdout s |}.
Proof.
  revert s. induction queries as [|q queries IH]; intros s.
  - simpl. by rewrite state_eta.
  - cbn [batch_outcomes foldl].
    pose proof (fetch_serper_run q n s) as Hrun.
    destruct (fetch_serper q n s) as [r s1]. injection Hrun as _ ->.
    specialize (IH {| net := (serper_post q (net s)).2; stdout := stdout s |}).
    by destruct (batch_outcomes queries n _).
Qed.

Lemma batch_outcomes_bounded queries (N : Z) s :
  (0 ≤ N)%Z →
  Forall (λ l : list SerpedSite, (length l ≤ Z.to_nat N)%nat)
         (successes (batch_outcomes queries N s).1).
Proof.
  intros HN. revert s. induction queries as [|q queries IH]; intros s.
  - constructor.
  - cbn [batch_outcomes].
    destruct (fetch_serper q N s) as [[sites|e] s1] eqn:Hfetch;
      specialize (IH s1); destruct (batch_outcomes queries N s1);
      unfold successes in *; simpl in *; [|done].
    constructor; [|done].
    apply fetch_serper_length_le in Hfetch; [lia|done].
Qed.

Lemma length_successes (outs : list QueryOutcome) :
  (length (successes outs) ≤ length outs)%nat.
Proof.
  induction outs as [|o outs IH]; [done|].
  unfold successes, omap in *. destruct o; simpl; lia.
Qed.

Lemma sum_list_bounded {B} (ls : list (list B)) k :
  Forall (λ l, (length l ≤ k)%nat) ls →
  (sum_list (length <$> ls) ≤ length ls * k)%nat.
Proof.
  induction 1 as [|l ls Hl _ IH]; [done|].
  rewrite fmap_cons. simpl. lia.
Qed.

Lemma print_lines_app (lines1 lines2 : list string) s :
  print_lines (lines1 ++ lines2) s
  = match print_lines lines1 s with
    | (Ok _, s') => print_lines lines2 s'
    | (Raise e, s') => (Raise e, s')
    end.
Proof.
  revert s. induction lines1 as [|line lines1 IH]; intros s; [done|].
  cbn [app print_lines]. by destruct (print line s) as [[[]|e] s1].
Qed.

Lemma site_print_loop (sites : list SerpedSite) s :
  for_each sites (λ _ site, print (site_line site)) tt s
  = print_lines (site_line <$> sites) s.
Proof.
  revert s. induction sites as [|site sites IH]; intros s; [done|].
  cbn [for_each fmap list_fmap print_lines]. rewrite io_bind_run.
  by destruct (print (site_line site) s) as [[[]|e] s1].
Qed.

Lemma serp_and_process_length_le queries (N : Z) s out s' :
  (0 ≤ N)%Z →
  serp_and_process queries N s = (Ok out, s') →
  (Z.of_nat (length out) ≤ Z.of_nat (length queries) * N)%Z.
Proof.
  intros HN Hrun.
  destruct (serp_and_process_encoded _ _ _ _ _ Hrun)
    as [[encoded Hall]|(e & [=] & _)].
  rewrite (serp_and_process_run _ _ _ _ Hall) in Hrun.
  destruct (print_lines _ _) as [[[]|e] s2]; [|discriminate].
  injection Hrun as <- _. rewrite deduplicate_keep_unseen.
  pose proof (sublist_length _ _
    (keep_unseen_sublist ∅
       (round_robin (successes (batch_outcomes encoded N s).1)))) as Hsub.
  rewrite length_round_robin in Hsub.
  pose proof (sum_list_bounded _ _
    (batch_outcomes_bounded encoded N s HN)) as Hsum.
  pose proof (length_successes (batch_outcomes encoded N s).1) as Hsucc.
  rewrite batch_outcomes_length, <-(Forall2_length _ _ _ Hall) in Hsucc.
  nia.
Qed.

(** X17. A batch over [queries1 ++ queries2] is the batch over [queries1]
    followed by the batch over [queries2] in the state that the first one
    leaves: the outcomes are concatenated. *)
Theorem fetch_serper_batch_by_limit_app queries1 queries2 n s :
  ∃ outs1 s1 outs2 s2,
    fetch_serper_batch_by_limit queries1 n s = (Ok outs1, s1)
    ∧ fetch_serper_batch_by_limit queries2 n s1 = (Ok outs2, s2)
    ∧ fetch_serper_batch_by_limit (queries1 ++ queries2) n s
      = (Ok (outs1 ++ outs2), s2).
Proof.
  eexists _, _, _, _. rewrite !fetch_serper_batch_outcomes.
  split_and!; [done..|]. by rewrite batch_outcomes_app.
Qed.

(** X18. The batch fetcher sends exactly one request per query, in the
    order of the queries and whether or not earlier ones failed, and
    prints nothing. *)
Theorem fetch_serper_batch_by_limit_requests queries n s :
  (fetch_serper_batch_by_limit queries n s).2
  = {| net := foldl (λ w query, (serper_post query w).2) (net s) queries;
       stdout := stdout s |}.
Proof.
  rewrite fetch_serper_batch_outcomes. apply batch_outcomes_state.
Qed.

(** X19. For queries that can be url-encoded, the effects of
    [serp_and_process] are those of the batch on the encoded queries, one
    request per query in order, followed by the printing of the
    diagnostics. A query that cannot be encoded makes it raise that error
    before any request is sent. *)
Theorem serp_and_process_requests queries n s :
  (∀ encoded : list string,
     Forall2 (λ query e, quote_plus query = Ok e) queries encoded →
     ∃ outs,
       fetch_serper_batch_by_limit encoded n s
       = (Ok outs,
          {| net := foldl (λ w query, (serper_post query w).2) (net s)
                          encoded;
             stdout := stdout s |})
       ∧ (serp_and_process queries n s).2
         = (print_lines
              (omap diagnostic (zip queries outs))
              {| net := foldl (λ w query, (serper_post query w).2) (net s)
                              encoded;
                 stdout := stdout s |}).2)
  ∧ (∀ (queries1 queries2 encoded1 : list string) query e,
       queries = queries1 ++ query :: queries2 →
       Forall2 (λ query e, quote_plus query = Ok e) queries1 encoded1 →
       quote_plus query = Raise e →
       serp_and_process queries n s = (Raise e, s)).
Proof.
  split.
  - intros encoded Hall. exists (batch_outcomes encoded n s).1.
    rewrite fetch_serper_batch_outcomes, (serp_and_process_run _ _ _ _ Hall).
    by rewrite batch_outcomes_state.
  - intros queries1 queries2 encoded1 query e -> Hall Hq.
    unfold serp_and_process. rewrite io_bind_run. unfold lift at 1.
    by rewrite (encode_loop_raise _ _ _ _ _ _ Hall Hq).
Qed.

(** X20. When the queries can be url-encoded and the diagnostics printed,
    [serp_and_process] prints exactly one message per failed query, in the
    order of the queries and nothing else; the message names the query as
    it was given, not url-encoded, and the text of the exception. *)
Theorem serp_and_process_diagnostics queries encoded n s outs s1 :
  Forall2 (λ query e, quote_plus query = Ok e) queries encoded →
  fetch_serper_batch_by_limit encoded n s = (Ok outs, s1) →
  (print_lines (omap diagnostic (zip queries outs)) s1).1 = Ok tt →
  stdout (serp_and_process queries n s).2
  = stdout s
    ++ omap (λ entry,
               match entry.2 with
               | Failed e =>
                   Some ("The search query '" +:+ entry.1
                         +:+ "' failed. Error: " +:+ exn_str e)
               | Sites _ => None
               end)
            (zip queries outs).
Proof.
  intros Hall Hbatch Hprint.
  rewrite fetch_serper_batch_outcomes in Hbatch.
  rewrite (serp_and_process_run _ _ _ _ Hall).
  pose proof (batch_outcomes_state encoded n s) as Hstate.
  destruct (batch_outcomes encoded n s) as [outs' s1'].
  injection Hbatch as -> ->. cbn [fst snd] in *.
  rewrite (print_lines_stdout _ _ Hprint), Hstate. done.
Qed.

(** X21. With [num_sites_per_query = N >= 0], a list returned by
    [serp_and_process] has at most [N] sites per query. *)
Theorem serp_and_process_at_most queries (N : Z) s out s' :
  (0 ≤ N)%Z →
  serp_and_process queries N s = (Ok out, s') →
  (Z.of_nat (length out) ≤ Z.of_nat (length queries) * N)%Z.
Proof. apply serp_and_process_length_le. Qed.

(** X22. When its query can be url-encoded and everything can be
    printed, the script of serp.py prints the diagnostic of the query, if
    it failed, and then one line per returned site, in order; it then ends
    without entering its [except] branch. *)
Theorem serp_main_prints_sites encoded s outs s1 out s2 :
  quote_plus "DonorAtlas" = Ok encoded →
  fetch_serper_batch_by_limit [encoded] 10 s = (Ok outs, s1) →
  serp_and_process ["DonorAtlas"] 10 s = (Ok out, s2) →
  (print_lines (site_line <$> out) s2).1 = Ok tt →
  serp_main s = (Ok tt, (print_lines (site_line <$> out) s2).2)
  ∧ stdout (serp_main s).2
    = stdout s ++ omap diagnostic (zip ["DonorAtlas"] outs)
      ++ (site_line <$> out).
Proof.
  intros Hq Hbatch Hrun Hprint.
  assert (serp_main s = (Ok tt, (print_lines (site_line <$> out) s2).2))
    as Hmain.
  { unfold serp_main, try_except. rewrite io_bind_run, Hrun, site_print_loop.
    destruct (print_lines (site_line <$> out) s2) as [[[]|e] s3];
      [done|discriminate]. }
  split; [done|]. rewrite Hmain. cbn [snd].
  rewrite (print_lines_stdout _ _ Hprint), app_assoc. f_equal.
  rewrite fetch_serper_batch_outcomes in Hbatch.
  assert (Forall2 (λ query e, quote_plus query = Ok e)
                  ["DonorAtlas"] [encoded]) as Hall
    by (by repeat constructor).
  rewrite (serp_and_process_run _ _ _ _ Hall) in Hrun.
  pose proof (batch_outcomes_state [encoded] 10 s) as Hstate.
  destruct (batch_outcomes [encoded] 10 s) as [outs' s1'].
  injection Hbatch as -> ->. cbn [fst snd] in *.
  destruct (print_lines _ s1) as [[[]|e] s3] eqn:Hdiag; [|discriminate].
  injection Hrun as _ <-.
  pose proof (print_lines_stdout (omap diagnostic (zip ["DonorAtlas"] outs))
                                 s1) as Hout.
  rewrite Hdiag in Hout. cbn [fst snd] in Hout.
  rewrite Hout by done. by rewrite Hstate.
Qed.
End PipelineMore.

(** ** The scrape client *)

Section ScrapeMore.
Context {env : Env}.
Implicit Types (s : state).

Lemma scrape_url_run url format wait_ms timeout s :
  scrape_url url format wait_ms timeout s
  = (response ←
       (olostep_post url (format_str format) wait_ms timeout (net s)).1;
     _ ← raise_for_status response;
     data ← json response;
     result ← py_getitem data "result";
     py_get result (format_str format +:+ "_content") PNone,
     {| net :=
          (olostep_post url (format_str format) wait_ms timeout (net s)).2;
        stdout := stdout s |}).
Proof.
  unfold scrape_url, call. rewrite io_bind_run.
  destruct (olostep_post url (format_str format) wait_ms timeout (net s))
    as [[response|e] w]; [|done].
  cbn [fst snd mbind pyres_bind]. rewrite io_bind_run. unfold lift at 1.
  destruct (raise_for_status response); [|done].
  cbn [mbind pyres_bind]. rewrite io_bind_run. unfold lift at 1.
  destruct (json response) as [data|e]; [|done].
  cbn [mbind pyres_bind]. rewrite io_bind_run. unfold lift at 1.
  by destruct (py_getitem data "result").
Qed.

(** X23. A successful response whose body has no key [result] makes
    [scrape_url] raise [KeyError]; it does not return [None]. *)
Theorem scrape_url_missing_result url format wait_ms timeout s d w' :
  answers (olostep_post url (format_str format) wait_ms timeout (net s))
          (PDict d) w' →
  d !! "result" = None →
  scrape_url url format wait_ms timeout s
  = (Raise (KeyError "result"), {| net := w'; stdout := stdout s |}).
Proof.
  intros (response & Hpost & Hstatus & Hjson) Hresult.
  rewrite scrape_url_run, Hpost. unfold raise_for_status.
  cbn [fst snd mbind pyres_bind]. rewrite Hstatus.
  cbn [mbind pyres_bind]. rewrite Hjson. simpl. by rewrite Hresult.
Qed.

(** X24. A [result] that is not an object, such as [null], makes
    [scrape_url] raise the [AttributeError] of [.get]. *)
Theorem scrape_url_result_not_object url format wait_ms timeout s d v w' :
  answers (olostep_post url (format_str format) wait_ms timeout (net s))
          (PDict d) w' →
  d !! "result" = Some v →
  (∀ result, v ≠ PDict result) →
  scrape_url url format wait_ms timeout s
  = (Raise (AttributeError v "get"), {| net := w'; stdout := stdout s |}).
Proof.
  intros (response & Hpost & Hstatus & Hjson) Hresult Hv.
  rewrite scrape_url_run, Hpost. unfold raise_for_status.
  cbn [fst snd mbind pyres_bind]. rewrite Hstatus.
  cbn [mbind pyres_bind]. rewrite Hjson. simpl. rewrite Hresult. simpl.
  by destruct v as [| | | | |?|result]; [..|destruct (Hv result)].
Qed.

(** X25. [scrape_url] returns a value only when the provider answered
    with a success status and a body holding a [result] object; the value
    is then the one stored under [<format>_content]. So it returns [None]
    only when that key is absent or holds [null], never for a failed
    request. *)
Theorem scrape_url_returns_only_on_answer url format wait_ms timeout s v s' :
  scrape_url url format wait_ms timeout s = (Ok v, s') →
  ∃ d result,
    answers (olostep_post url (format_str format) wait_ms timeout (net s))
            (PDict d) (net s')
    ∧ d !! "result" = Some (PDict result)
    ∧ v = default PNone (result !! (format_str format +:+ "_content"))
    ∧ (v = PNone →
       result !! (format_str format +:+ "_content") = None
       ∨ result !! (format_str format +:+ "_content") = Some PNone).
Proof.
  rewrite scrape_url_run. unfold answers, raise_for_status.
  destruct (olostep_post url (format_str format) wait_ms timeout (net s))
    as [[response|e] w]; [|done].
  cbn [fst snd mbind pyres_bind].
  destruct (status_error response) eqn:Hstatus; [done|].
  cbn [mbind pyres_bind].
  destruct (json response) as [data|e] eqn:Hjson; [|done].
  destruct data as [| | | | |?|d]; try done. cbn [mbind pyres_bind py_getitem].
  destruct (d !! "result") as [[| | | | |?|result]|] eqn:Hresult; try done.
  cbn [mbind pyres_bind py_get]. intros [= <- <-].
  exists d, result. split_and!; [|done..|].
  - exists response. by rewrite Hjson.
  - destruct (result !! _) as [content|]; simpl; [|by left].
    intros ->. by right.
Qed.

(** X26. Whatever the outcome, a call of [scrape_url] sends exactly one
    request, carrying its url, format and waiting time, and prints
    nothing. *)
Theorem scrape_url_one_request url format wait_ms timeout s :
  (scrape_url url format wait_ms timeout s).2
  = {| net :=
         (olostep_post url (format_str format) wait_ms timeout (net s)).2;
       stdout := stdout s |}.
Proof. by rewrite scrape_url_run. Qed.
End ScrapeMore.

(** ** The LLM client *)

Section LlmMore.
Context {env : Env} {llm : LlmEnv}.
Implicit Types (s : state) (schema : option (gmap string pyval)).

Lemma call_llm_run system_prompt user_prompt model max_tokens temperature
    schema s :
  call_llm system_prompt user_prompt model max_tokens temperature schema s
  = (response ←
       (openai_post
          (PDict (llm_payload system_prompt user_prompt model max_tokens
                              temperature schema))
          (net s)).1;
     _ ← raise_for_status response;
     data ← json response;
     choices ← py_getitem data "choices";
     choice ← py_getitem_int choices 0;
     message ← py_getitem choice "message";
     content ← py_getitem message "content";
     if bool_decide (is_Some schema) then py_json_loads content
     else Ok content,
     {| net :=
          (openai_post
             (PDict (llm_payload system_prompt user_prompt model max_tokens
                                 temperature schema))
             (net s)).2;
        stdout := stdout s |}).
Proof.
  unfold call_llm, call. rewrite io_bind_run.
  destruct (openai_post _ (net s)) as [[response|e] w]; [|done].
  cbn [fst snd mbind pyres_bind]. rewrite io_bind_run. unfold lift at 1.
  destruct (raise_for_status response); [|done].
  cbn [mbind pyres_bind]. rewrite io_bind_run. unfold lift at 1.
  destruct (json response) as [data|e]; [|done].
  cbn [mbind pyres_bind]. rewrite io_bind_run. unfold lift at 1.
  destruct (py_getitem data "choices") as [choices|e]; [|done].
  cbn [mbind pyres_bind]. rewrite io_bind_run. unfold lift at 1.
  destruct (py_getitem_int choices 0) as [choice|e]; [|done].
  cbn [mbind pyres_bind]. rewrite io_bind_run. unfold lift at 1.
  destruct (py_getitem choice "message") as [message|e]; [|done].
  cbn [mbind pyres_bind]. rewrite io_bind_run. unfold lift at 1.
  destruct (py_getitem message "content") as [content|e]; [|done].
  cbn [mbind pyres_bind]. by case_bool_decide.
Qed.

Lemma call_llm_answered system_prompt user_prompt model max_tokens
    temperature schema s d content w' :
  answers
    (openai_post
       (PDict (llm_payload system_prompt user_prompt model max_tokens
                           temperature schema))
       (net s))
    (PDict d) w' →
  replies_with d content →
  call_llm system_prompt user_prompt model max_tokens temperature schema s
  = (if bool_decide (is_Some schema) then py_json_loads content
     else Ok content,
     {| net := w'; stdout := stdout s |}).
Proof.
  intros (response & Hpost & Hstatus & Hjson).
  intros (choice & rest & message & Hchoices & Hmessage & Hcontent).
  rewrite call_llm_run, Hpost. unfold raise_for_status.
  cbn [fst snd mbind pyres_bind]. rewrite Hstatus.
  cbn [mbind pyres_bind]. rewrite Hjson.
  cbn [mbind pyres_bind py_getitem]. rewrite Hchoices.
  cbn [mbind pyres_bind py_getitem_int lookup list_lookup py_getitem].
  rewrite Hmessage. cbn [mbind pyres_bind py_getitem]. by rewrite Hcontent.
Qed.

(** X27. Without a schema, [call_llm] returns the content of the first
    choice as the provider sent it, unparsed. *)
Theorem call_llm_text system_prompt user_prompt model max_tokens temperature
    s d content w' :
  answers
    (openai_post
       (PDict (llm_payload system_prompt user_prompt model max_tokens
                           temperature None))
       (net s))
    (PDict d) w' →
  replies_with d content →
  call_llm system_prompt user_prompt model max_tokens temperature None s
  = (Ok content, {| net := w'; stdout := stdout s |}).
Proof.
  intros Hans Hreply.
  by rewrite (call_llm_answered _ _ _ _ _ _ _ _ _ _ Hans Hreply).
Qed.

(** X28. With a schema, empty or not, [call_llm] returns what
    [json.loads] makes of the content of the first choice: the parsed value
    or the decoding error for a string, a [TypeError] for anything else. *)
Theorem call_llm_structured system_prompt user_prompt model max_tokens
    temperature sch s d content w' :
  answers
    (openai_post
       (PDict (llm_payload system_prompt user_prompt model max_tokens
                           temperature (Some sch)))
       (net s))
    (PDict d) w' →
  replies_with d content →
  (∀ text, content = PStr text →
     call_llm system_prompt user_prompt model max_tokens temperature
              (Some sch) s
     = (json_loads text, {| net := w'; stdout := stdout s |}))
  ∧ ((∀ text, content ≠ PStr text) →
     ∃ e,
       call_llm system_prompt user_prompt model max_tokens temperature
                (Some sch) s
       = (Raise e, {| net := w'; stdout := stdout s |})
       ∧ exn_class e = "TypeError").
Proof.
  intros Hans Hreply.
  rewrite (call_llm_answered _ _ _ _ _ _ _ _ _ _ Hans Hreply).
  rewrite bool_decide_true by eauto. split.
  - by intros text ->.
  - intros Hcontent. destruct content as [| | | |text| |]; simpl; eauto.
    by destruct (Hcontent text).
Qed.

(** X29. The request asks for structured output exactly when the schema
    is a non-empty dict. An empty schema gives the very request of a call
    without schema, asking for text, although the reply to it is then
    parsed as JSON. *)
Theorem llm_payload_response_format system_prompt user_prompt model
    max_tokens temperature :
  llm_payload system_prompt user_prompt model max_tokens temperature (Some ∅)
  = llm_payload system_prompt user_prompt model max_tokens temperature None
  ∧ llm_payload system_prompt user_prompt model max_tokens temperature None
      !! "response_format"
    = Some (PDict {[ "type" := PStr "text" ]})
  ∧ ∀ sch,
      sch ≠ ∅ →
      llm_payload system_prompt user_prompt model max_tokens temperature
                  (Some sch) !! "response_format"
      = Some (PDict {[ "type" := PStr "json_schema";
                       "json_schema" :=
                         PDict {[ "name" := PStr "response";
                                  "schema" := PDict sch ]} ]}).
Proof.
  split_and!.
  - done.
  - done.
  - intros sch Hsch. unfold llm_payload, schema_truthy.
    destruct (size sch) eqn:Hsize; [by apply map_size_empty_iff in Hsize|].
    done.
Qed.

(** X30. A body without [choices], or with an empty list of choices,
    makes [call_llm] raise [KeyError], respectively [IndexError]. *)
Theorem call_llm_no_choice system_prompt user_prompt model max_tokens
    temperature schema s d w' :
  answers
    (openai_post
       (PDict (llm_payload system_prompt user_prompt model max_tokens
                           temperature schema))
       (net s))
    (PDict d) w' →
  (d !! "choices" = None →
   call_llm system_prompt user_prompt model max_tokens temperature schema s
   = (Raise (KeyError "choices"), {| net := w'; stdout := stdout s |}))
  ∧ (d !! "choices" = Some (PList []) →
     call_llm system_prompt user_prompt model max_tokens temperature schema s
     = (Raise (Exn "IndexError" "list index out of range"),
        {| net := w'; stdout := stdout s |})).
Proof.
  intros (response & Hpost & Hstatus & Hjson).
  rewrite call_llm_run, Hpost. unfold raise_for_status.
  cbn [fst snd mbind pyres_bind]. rewrite Hstatus.
  cbn [mbind pyres_bind]. rewrite Hjson.
  cbn [mbind pyres_bind py_getitem]. split; by intros ->.
Qed.
End LlmMore.

(** ** Further instances on concrete inputs *)

Lemma deduplicate_distinct_witness :
  deduplicate
    [ {| url := "https://a.example"; title := "A"; snippet := "";
         rich_snippet := None; source := Some "" |};
      {| url := "https://b.example"; title := "B"; snippet := "";
         rich_snippet := None; source := None |} ]
  = [ {| url := "https://a.example"; title := "A"; snippet := "";
         rich_snippet := None; source := Some "" |};
      {| url := "https://b.example"; title := "B"; snippet := "";
         rich_snippet := None; source := None |} ].
Proof.
  apply deduplicate_distinct. simpl.
  apply NoDup_cons. split; [|apply NoDup_singleton].
  intros Hin%list_elem_of_singleton. discriminate Hin.
Defined.

Lemma fetch_serper_returns_only_on_answer_witness :
  ∃ sites s' d,
    fetch_serper (env:=Demo.env) "donor" 2 Demo.start = (Ok sites, s')
    ∧ answers (env:=Demo.env) (serper_post "donor" (net Demo.start))
              (PDict d) (net s').
Proof.
  destruct (fetch_serper (env:=Demo.env) "donor" 2 Demo.start)
    as [[sites|e] s'] eqn:Hrun; [|vm_compute in Hrun; discriminate Hrun].
  destruct (fetch_serper_returns_only_on_answer (env:=Demo.env) _ _ _ _ _ Hrun)
    as (d & items & Hans & _).
  exists sites, s', d. split; [reflexivity|exact Hans].
Defined.

Lemma fetch_serper_propagates_witness :
  (fetch_serper (env:=Demo2.env) "down" 1 Demo2.start).1
  = Raise (Exn "ConnectionError" "connection refused")
  ∧ (fetch_serper (env:=Demo2.env) "denied" 1 Demo2.start).1
    = Raise (Exn "HTTPError" "403 Client Error")
  ∧ (fetch_serper (env:=Demo2.env) "garbled" 1 Demo2.start).1
    = Raise (Exn "JSONDecodeError" "Expecting value").
Proof.
  split_and!.
  - eapply (proj1 (fetch_serper_propagates (env:=Demo2.env) "down" 1
                     Demo2.start)).
    reflexivity.
  - eapply (proj1 (proj2 (fetch_serper_propagates (env:=Demo2.env) "denied" 1
                            Demo2.start)));
      reflexivity.
  - eapply (proj2 (proj2 (fetch_serper_propagates (env:=Demo2.env) "garbled" 1
                            Demo2.start)));
      reflexivity.
Defined.


Lemma demo2_answers (query : string) (body : pyval) :
  Demo2.search query 0%nat
  = (Ok {| status_error := None; json := Ok body |}, 1%nat) →
  answers (env:=Demo2.env) (serper_post query (net Demo2.start)) body 1%nat.
Proof. intros Hq. eexists. split; [exact Hq|]. split; reflexivity. Qed.

Lemma fetch_serper_malformed_body_witness :
  fetch_serper (env:=Demo2.env) "array" 5 Demo2.start
  = (Raise (AttributeError (PList []) "get"),
     Demo2.after_one)
  ∧ ∃ e, fetch_serper (env:=Demo2.env) "null" 5 Demo2.start
         = (Raise e, Demo2.after_one)
         ∧ exn_class e = "TypeError".
Proof.
  split.
  - apply (proj1 (fetch_serper_malformed_body (env:=Demo2.env) "array" 5
                    Demo2.start (PList []) 1%nat
                    (demo2_answers "array" (PList []) eq_refl))).
    intros d Hd. discriminate Hd.
  - apply (proj2 (fetch_serper_malformed_body (env:=Demo2.env) "null" 5
                    Demo2.start (PDict Demo2.null_organic) 1%nat
                    (demo2_answers "null" (PDict Demo2.null_organic) eq_refl))
             Demo2.null_organic PNone);
      [reflexivity|reflexivity|..]; intros ? Hv; discriminate Hv.
Defined.

Lemma fetch_serper_bad_entry_witness :
  ∃ e, fetch_serper (env:=Demo2.env) "mixed" 3 Demo2.start
       = (Raise e, Demo2.after_one).
Proof.
  apply (fetch_serper_bad_entry (env:=Demo2.env) "mixed" 3 Demo2.start
           Demo2.mixed_organic Demo2.mixed_entries 1%nat (PStr "advert")).
  - by apply demo2_answers.
  - reflexivity.
  - apply list_elem_of_further, list_elem_of_further, list_elem_of_here.
  - intros d Hd. discriminate Hd.
Defined.

Lemma fetch_serper_at_most_witness :
  ∃ sites s',
    fetch_serper (env:=Demo.env) "donor" 2 Demo.start = (Ok sites, s')
    ∧ (Z.of_nat (length sites) ≤ 2)%Z.
Proof.
  destruct (fetch_serper (env:=Demo.env) "donor" 2 Demo.start)
    as [[sites|e] s'] eqn:Hrun; [|vm_compute in Hrun; discriminate Hrun].
  exists sites, s'. split; [reflexivity|].
  apply (fetch_serper_at_most (env:=Demo.env) "donor" 2 Demo.start sites s');
    [lia|exact Hrun].
Defined.

Lemma serp_and_process_requests_witness :
  (∃ outs,
     fetch_serper_batch_by_limit (env:=Demo.env)
       ["donor+atlas"; "down"; "x%2Fy"] 2 Demo.start
     = (Ok outs, {| net := 3%nat; stdout := [] |})
     ∧ net (serp_and_process (env:=Demo.env) ["donor atlas"; "down"; "x/y"]
                             2 Demo.start).2
       = 3%nat)
  ∧ serp_and_process (env:=Demo3.env) ["donors"; "lone surrogate"; "x"] 2
                     Demo3.start
    = (Raise (Exn "UnicodeEncodeError" "surrogates not allowed"),
       Demo3.start).
Proof.
  split.
  - destruct (proj1 (serp_and_process_requests (env:=Demo.env)
                       ["donor atlas"; "down"; "x/y"] 2 Demo.start)
                    _ demo_encoded)
      as (outs & Hbatch & Hstate).
    exists outs. split; [exact Hbatch|]. rewrite Hstate.
    vm_compute in Hbatch. injection Hbatch as <-. reflexivity.
  - apply (proj2 (serp_and_process_requests (env:=Demo3.env)
                    ["donors"; "lone surrogate"; "x"] 2 Demo3.start)
             ["donors"] ["x"] ["donors"] "lone surrogate").
    + reflexivity.
    + repeat constructor.
    + reflexivity.
Defined.

Lemma serp_and_process_diagnostics_witness :
  stdout (serp_and_process (env:=Demo.env) ["donor atlas"; "down"; "x/y"] 2
                           Demo.start).2
  = ["The search query 'down' failed. Error: connection refused"].
Proof.
  destruct (fetch_serper_batch_by_limit (env:=Demo.env)
              ["donor+atlas"; "down"; "x%2Fy"] 2 Demo.start)
    as [[outs|e] s1] eqn:Hbatch; [|vm_compute in Hbatch; discriminate Hbatch].
  rewrite (serp_and_process_diagnostics (env:=Demo.env)
             ["donor atlas"; "down"; "x/y"] ["donor+atlas"; "down"; "x%2Fy"]
             2 Demo.start outs s1 demo_encoded Hbatch).
  - vm_compute in Hbatch. injection Hbatch as <- <-. reflexivity.
  - vm_compute in Hbatch. injection Hbatch as <- <-. reflexivity.
Defined.

Lemma serp_and_process_at_most_witness :
  ∃ out s',
    serp_and_process (env:=Demo.env) ["donor atlas"; "down"; "x/y"] 2
                     Demo.start
    = (Ok out, s')
    ∧ (Z.of_nat (length out) ≤ 6)%Z.
Proof.
  destruct (serp_and_process (env:=Demo.env) ["donor atlas"; "down"; "x/y"] 2
                             Demo.start)
    as [[out|e] s'] eqn:Hrun; [|vm_compute in Hrun; discriminate Hrun].
  exists out, s'. split; [reflexivity|].
  apply (serp_and_process_at_most (env:=Demo.env)
           ["donor atlas"; "down"; "x/y"] 2 Demo.start out s');
    [lia|exact Hrun].
Defined.

Lemma serp_main_prints_sites_witness :
  stdout (serp_main (env:=Demo.env) Demo.start).2
  = [ "Site: https://a.example, Source: A Corp, Snippet: first hit";
      "Site: https://b.example, Source: , Snippet: " ].
Proof.
  destruct (fetch_serper_batch_by_limit (env:=Demo.env) ["DonorAtlas"] 10
                                        Demo.start)
    as [[outs|e] s1] eqn:Hbatch; [|vm_compute in Hbatch; discriminate Hbatch].
  destruct (serp_and_process (env:=Demo.env) ["DonorAtlas"] 10 Demo.start)
    as [[out|e] s2] eqn:Hrun; [|vm_compute in Hrun; discriminate Hrun].
  destruct (serp_main_prints_sites (env:=Demo.env) "DonorAtlas" Demo.start
              outs s1 out s2 eq_refl Hbatch Hrun)
    as [_ Hout].
  - vm_compute in Hrun. injection Hrun as <- <-. reflexivity.
  - rewrite Hout. vm_compute in Hbatch. injection Hbatch as <- <-.
    vm_compute in Hrun. injection Hrun as <- <-. reflexivity.
Defined.

Lemma demo2_scrape_answers (url : string) (format : Format)
    (body : gmap string pyval) :
  Demo2.scrape url (format_str format) 1000 60 0%nat
  = (Ok (Demo2.reply body), 1%nat) →
  answers (env:=Demo2.env)
          (olostep_post url (format_str format) 1000 60 (net Demo2.start))
          (PDict body) 1%nat.
Proof. intros Hq. eexists. split; [exact Hq|]. split; reflexivity. Qed.

Lemma scrape_url_missing_result_witness :
  scrape_url (env:=Demo2.env) "empty" markdown 1000 60 Demo2.start
  = (Raise (KeyError "result"), Demo2.after_one).
Proof.
  apply (scrape_url_missing_result (env:=Demo2.env) "empty" markdown 1000 60
           Demo2.start ∅ 1%nat).
  - by apply demo2_scrape_answers.
  - reflexivity.
Defined.

Lemma scrape_url_result_not_object_witness :
  scrape_url (env:=Demo2.env) "null" html 1000 60 Demo2.start
  = (Raise (AttributeError PNone "get"), Demo2.after_one).
Proof.
  apply (scrape_url_result_not_object (env:=Demo2.env) "null" html 1000 60
           Demo2.start Demo2.null_result PNone 1%nat).
  - by apply demo2_scrape_answers.
  - reflexivity.
  - intros result Hv. discriminate Hv.
Defined.

Lemma scrape_url_returns_only_on_answer_witness :
  ∃ (d result : gmap string pyval),
    scrape_url (env:=Demo2.env) "https://donors.example" markdown 1000 60
               Demo2.start
    = (Ok PNone, Demo2.after_one)
    ∧ d !! "result" = Some (PDict result)
    ∧ result !! "markdown_content" = None.
Proof.
  destruct (scrape_url_returns_only_on_answer (env:=Demo2.env)
              "https://donors.example" markdown 1000 60 Demo2.start PNone
              Demo2.after_one eq_refl)
    as (d & result & Hans & Hresult & Hv & Hnone).
  exists d, result. split; [reflexivity|]. split; [exact Hresult|].
  destruct Hans as (response & [= <-] & _ & [= <-]).
  vm_compute in Hresult. injection Hresult as <-. reflexivity.
Defined.

(** A successful response without the content: the body is an empty
    object, so the content field is absent, and [scrape_url] raises instead
    of returning [None]. *)
Lemma scrape_url_absent_content_raises :
  answers (env:=Demo2.env)
          (olostep_post "empty" (format_str markdown) 1000 60
                        (net Demo2.start))
          (PDict ∅) 1%nat
  ∧ scrape_url (env:=Demo2.env) "empty" markdown 1000 60 Demo2.start
    = (Raise (KeyError "result"), Demo2.after_one)
  ∧ ¬ ∃ s', scrape_url (env:=Demo2.env) "empty" markdown 1000 60 Demo2.start
            = (Ok PNone, s').
Proof.
  split_and!.
  - eexists. split_and!; reflexivity.
  - reflexivity.
  - intros [s' Hrun]. vm_compute in Hrun. discriminate Hrun.
Qed.

Lemma demo2_llm_answers (system_prompt : string)
    (schema : option (gmap string pyval)) (body : gmap string pyval) :
  Demo2.complete
    (PDict (llm_payload system_prompt "What is the capital?"
                        "gpt-4o-mini" 8192 "1.0" schema))
    0%nat
  = (Ok (Demo2.reply body), 1%nat) →
  answers (env:=Demo2.env)
    (openai_post (LlmEnv:=Demo2.llm)
       (PDict (llm_payload system_prompt
                           "What is the capital?" "gpt-4o-mini" 8192 "1.0"
                           schema))
       (net Demo2.start))
    (PDict body) 1%nat.
Proof. intros Hq. eexists. split; [exact Hq|]. split; reflexivity. Qed.

Lemma demo2_replies :
  replies_with (Demo2.completion (PStr "[]")) (PStr "[]").
Proof. eexists _, _, _. split_and!; reflexivity. Qed.

Lemma call_llm_text_witness :
  call_llm (llm:=Demo2.llm) "You are a helpful assistant."
           "What is the capital?" "gpt-4o-mini" 8192 "1.0" None Demo2.start
  = (Ok (PStr "[]"), Demo2.after_one).
Proof.
  apply (call_llm_text (llm:=Demo2.llm) _ _ _ _ _ Demo2.start
           (Demo2.completion (PStr "[]")) (PStr "[]") 1%nat).
  - by apply demo2_llm_answers.
  - exact demo2_replies.
Defined.

Lemma call_llm_structured_witness :
  call_llm (llm:=Demo2.llm) "You are a helpful assistant."
           "What is the capital?" "gpt-4o-mini" 8192 "1.0"
           (Some {[ "type" := PStr "array" ]}) Demo2.start
  = (Ok (PList []), Demo2.after_one).
Proof.
  apply (proj1 (call_llm_structured (llm:=Demo2.llm) _ _ _ _ _
                  {[ "type" := PStr "array" ]} Demo2.start
                  (Demo2.completion (PStr "[]")) (PStr "[]") 1%nat
                  (demo2_llm_answers "You are a helpful assistant."
                     (Some {[ "type" := PStr "array" ]})
                     (Demo2.completion (PStr "[]")) eq_refl)
                  demo2_replies)
           "[]" eq_refl).
Defined.

Lemma llm_payload_response_format_witness :
  llm_payload "You are a helpful assistant."
              "What is the capital?" "gpt-4o-mini" 8192 "1.0"
              (Some {[ "type" := PStr "array" ]}) !! "response_format"
  = Some (PDict {[ "type" := PStr "json_schema";
                   "json_schema" :=
                     PDict {[ "name" := PStr "response";
                              "schema" :=
                                PDict {[ "type" := PStr "array" ]} ]} ]}).
Proof.
  apply (proj2 (proj2 (llm_payload_response_format _ _ _ _ _))).
  apply insert_non_empty.
Defined.

Lemma call_llm_no_choice_witness :
  call_llm (llm:=Demo2.llm) "bare" "What is the capital?" "gpt-4o-mini"
           8192 "1.0" None Demo2.start
  = (Raise (KeyError "choices"), Demo2.after_one)
  ∧ call_llm (llm:=Demo2.llm) "silent" "What is the capital?" "gpt-4o-mini"
             8192 "1.0" None Demo2.start
    = (Raise (Exn "IndexError" "list index out of range"),
       Demo2.after_one).
Proof.
  split.
  - apply (proj1 (call_llm_no_choice (llm:=Demo2.llm) _ _ _ _ _ _ Demo2.start
                    ∅ 1%nat (demo2_llm_answers "bare" None ∅ eq_refl))).
    reflexivity.
  - apply (proj2 (call_llm_no_choice (llm:=Demo2.llm) _ _ _ _ _ _ Demo2.start
                    Demo2.no_choice 1%nat
                    (demo2_llm_answers "silent" None Demo2.no_choice eq_refl))).
    reflexivity.
Defined.
